(** * Emphatic TD(lambda): the ETD and TOETD learners of [src/cpp]

    A shallow embedding of the two C++ classes [ETD] (ETD.cpp) and [TOETD]
    (TOETD.cpp) and the properties their specification states about them.

    - The scalar type [double] is a parameter of the embedding (class
      [Scalar]): every definition is written once, over any carrier with the
      constants 0 and 1 and the three operations the source uses.  Two
      carriers are provided: the real numbers (the data model of the
      specification, which speaks of "real numbers" throughout) and IEEE-754
      binary64 (Rocq's primitive floats).  Structural facts are proved for
      every carrier; algebraic identities, which binary64 satisfies up to
      rounding only, are proved over the reals; facts about zeros, signs and
      resets, which overflow and NaN can break, are proved in binary64.
    - The objects are mutable: a method is a computation in a state-and-fault
      monad over the object's fields.
    - C++ arrays carry no length: a caller's array is a list, and reading
      past its end is undefined behaviour ([Undefined]).  The dimension [n]
      is an [int], modelled in [Z]; a loop index runs over [nat], since it
      counts up from 0. *)

From Stdlib Require Import ZArith List Reals Lra Lia Bool.
From Stdlib Require Import Floats.
Import ListNotations.

Set Implicit Arguments.
Set Warnings "-inexact-float".

(** ** Scalars *)

Class Scalar (T : Type) : Type := {
  zero : T;
  one : T;
  add : T -> T -> T;
  sub : T -> T -> T;
  mul : T -> T -> T
}.

Declare Scope scalar_scope.
Delimit Scope scalar_scope with sc.
Notation "0" := zero : scalar_scope.
Notation "1" := one : scalar_scope.
Infix "+" := add : scalar_scope.
Infix "-" := sub : scalar_scope.
Infix "*" := mul : scalar_scope.

(** The reals: the idealised [double] of the specification. *)
#[export] Instance R_Scalar : Scalar R :=
  {| zero := 0%R; one := 1%R; add := Rplus; sub := Rminus; mul := Rmult |}.

(** IEEE-754 binary64 with round-to-nearest-even: [double] as the machine
    has it (no fused multiply-add, no extended precision). *)
#[export] Instance binary64_Scalar : Scalar float :=
  {| zero := 0%float; one := 1%float;
     add := PrimFloat.add; sub := PrimFloat.sub; mul := PrimFloat.mul |}.

(** ** Outcomes of a call *)

(** [InvalidArgument] is the error kind of the specified interface;
    [bad_array_new_length] is what [new double[n]] raises when [n] is
    negative. *)
Inductive exception : Type :=
  | InvalidArgument
  | bad_array_new_length.

Inductive outcome (A : Type) : Type :=
  | Returns (a : A)
  | Throws (x : exception)
  | Undefined.

Arguments Throws {A} x.
Arguments Undefined {A}.

(** A method of an object with fields [St]. *)
Definition method (St A : Type) : Type := St -> outcome (A * St).

Definition ret {St A : Type} (a : A) : method St A := fun s => Returns (a, s).

Definition bind {St A B : Type} (c : method St A) (k : A -> method St B) : method St B :=
  fun s =>
    match c s with
    | Returns (a, s') => k a s'
    | Throws x => Throws x
    | Undefined => Undefined
    end.

Definition gets {St A : Type} (f : St -> A) : method St A := fun s => Returns (f s, s).

Definition modify {St : Type} (f : St -> St) : method St unit := fun s => Returns (tt, f s).

Declare Scope method_scope.
Delimit Scope method_scope with method.
Notation "x <- c ;; k" := (bind c (fun x => k))
  (at level 61, c at next level, right associativity) : method_scope.
Notation "c ;; k" := (bind c (fun _ => k))
  (at level 61, right associativity) : method_scope.

(** [for (int i = 0; i < n; i++) body], with the loop-carried local [acc]:
    [for_upto n] runs the body for i = 0, ..., n-1, and not at all when
    [n <= 0]. *)
Fixpoint for_loop {St A : Type} (count : nat) (i : nat)
    (body : nat -> A -> method St A) (acc : A) : method St A :=
  match count with
  | O => ret acc
  | S count' => bind (body i acc) (for_loop count' (S i) body)
  end.

Definition for_upto {St A : Type} (n : Z) (body : nat -> A -> method St A) (acc : A)
    : method St A :=
  for_loop (Z.to_nat n) 0 body acc.

(** [v[i] = x] on an array of the object. *)
Fixpoint update {A : Type} (v : list A) (i : nat) (x : A) : option (list A) :=
  match v, i with
  | [], _ => None
  | _ :: v', O => Some (x :: v')
  | y :: v', S i' => option_map (cons y) (update v' i' x)
  end.

(** A method preserves a property of the object; a method raises no
    exception. *)
Definition preserves {St A : Type} (P : St -> Prop) (c : method St A) : Prop :=
  forall s a s', P s -> c s = Returns (a, s') -> P s'.

Definition never_throws {St A : Type} (c : method St A) : Prop :=
  forall s x, c s <> Throws x.

(** ** The class [ETD] (ETD.cpp) *)

Module ETD.
Section Class.
Context {T : Type} `{Scalar T}.
Local Open Scope scalar_scope.
Local Open Scope method_scope.

(** The instance variables, ETD.cpp lines 14-18. *)
Record state : Type := mk {
  n : Z;
  theta : list T;
  e : list T;
  F : T;
  D : T
}.

Definition set_theta (s : state) (v : list T) : state :=
  {| n := n s; theta := v; e := e s; F := F s; D := D s |}.
Definition set_e (s : state) (v : list T) : state :=
  {| n := n s; theta := theta s; e := v; F := F s; D := D s |}.
Definition set_F (s : state) (x : T) : state :=
  {| n := n s; theta := theta s; e := e s; F := x; D := D s |}.
Definition set_D (s : state) (x : T) : state :=
  {| n := n s; theta := theta s; e := e s; F := F s; D := x |}.

(** A [double[]] argument of a method is one of the object's own arrays
    or an array of the caller. *)
Inductive array : Type :=
  | this_theta
  | this_e
  | caller (v : list T).

Definition deref (s : state) (a : array) : list T :=
  match a with
  | this_theta => theta s
  | this_e => e s
  | caller v => v
  end.

(** [a[i]] as an rvalue. *)
Definition rd (a : array) (i : nat) : method state T :=
  fun s =>
    match nth_error (deref s a) i with
    | Some x => Returns (x, s)
    | None => Undefined
    end.

(** [e[i] = x] and [theta[i] = x]. *)
Definition wr_e (i : nat) (x : T) : method state unit :=
  fun s =>
    match update (e s) i x with
    | Some v => Returns (tt, set_e s v)
    | None => Undefined
    end.

Definition wr_theta (i : nat) (x : T) : method state unit :=
  fun s =>
    match update (theta s) i x with
    | Some v => Returns (tt, set_theta s v)
    | None => Undefined
    end.

(** The constructor, ETD.cpp lines 21-34. *)
Definition new (fvec_length : Z) : outcome state :=
  if (fvec_length <? 0)%Z then Throws bad_array_new_length
  else Returns {| n := fvec_length;
                  theta := repeat 0 (Z.to_nat fvec_length);
                  e := repeat 0 (Z.to_nat fvec_length);
                  F := 0;
                  D := 0 |}.

(** [dot], ETD.cpp lines 65-72. *)
Definition dot (v1 v2 : array) : method state T :=
  len <- gets n ;;
  for_upto len
    (fun i ret_ =>
       x <- rd v1 i ;;
       y <- rd v2 i ;;
       ret (ret_ + x * y))
    0.

(** [predict], ETD.cpp lines 60-63. *)
Definition predict (fvec : list T) : method state T :=
  dot this_theta (caller fvec).

(** The scalars of one update, ETD.cpp lines 41-44: [F] is incremented
    and [(delta, M, S)] are the locals of the same names. *)
Definition learn_scalars (phi : list T) (r : T) (phi_p : list T)
    (alpha gamma gamma_p I lambda rho : T) : method state (T * T * T) :=
  modify (fun s => set_F s (F s + I)) ;;
  d1 <- dot this_theta (caller phi_p) ;;
  d2 <- dot this_theta (caller phi) ;;
  let delta := r + gamma_p * d1 - d2 in
  F_ <- gets F ;;
  let M := lambda * I + (1 - lambda) * F_ in
  d3 <- dot (caller phi) this_e ;;
  let S := rho * alpha * M * (1 - rho * gamma * lambda * d3) in
  ret (delta, M, S).

(** The body of the loop, ETD.cpp lines 50-53, at index [i]; [D_p] is the
    loop-carried local. *)
Definition learn_body (phi phi_p : list T)
    (alpha gamma lambda rho delta M S : T) (i : nat) (D_p : T)
    : method state T :=
  e_i <- rd this_e i ;;
  phi_i <- rd (caller phi) i ;;
  wr_e i (rho * gamma * lambda * e_i + S * phi_i) ;;
  e_i' <- rd this_e i ;;
  D_ <- gets D ;;
  phi_i' <- rd (caller phi) i ;;
  let delta_i := delta * e_i' + D_ * (e_i' - rho * alpha * M * phi_i') in
  theta_i <- rd this_theta i ;;
  wr_theta i (theta_i + delta_i) ;;
  phi_p_i <- rd (caller phi_p) i ;;
  ret (D_p + delta_i * phi_p_i).

(** [learn], ETD.cpp lines 36-58. *)
Definition learn (phi : list T) (r : T) (phi_p : list T)
    (alpha gamma gamma_p I lambda rho : T) : method state unit :=
  dMS <- learn_scalars phi r phi_p alpha gamma gamma_p I lambda rho ;;
  let '(delta, M, S_) := dMS in
  len <- gets n ;;
  D_p <- for_upto len (learn_body phi phi_p alpha gamma lambda rho delta M S_) 0 ;;
  modify (fun s => set_D s D_p) ;;
  modify (fun s => set_F s (F s * (rho * gamma_p))).

(** The arguments of one call of [learn], in the order of the source. *)
Record args : Type := call {
  phi : list T;
  r : T;
  phi_p : list T;
  alpha : T;
  gamma : T;
  gamma_p : T;
  I : T;
  lambda : T;
  rho : T
}.

Definition learn_args (a : args) : method state unit :=
  learn (phi a) (r a) (phi_p a) (alpha a) (gamma a) (gamma_p a) (I a)
        (lambda a) (rho a).

(** A sequence of [learn] calls on one object. *)
Fixpoint learns (calls : list args) : method state unit :=
  match calls with
  | [] => ret tt
  | a :: calls' => learn_args a ;; learns calls'
  end.

(** Construct an object and run a method of it. *)
Definition session {A : Type} (fvec_length : Z) (c : method state A)
    : outcome (A * state) :=
  match new fvec_length with
  | Returns s => c s
  | Throws x => Throws x
  | Undefined => Undefined
  end.

End Class.
Arguments state T : clear implicits.
Arguments args T : clear implicits.
Arguments array T : clear implicits.
End ETD.

(** ** The class [TOETD] (TOETD.cpp) *)

Module TOETD.
Section Class.
Context {T : Type} `{Scalar T}.
Local Open Scope scalar_scope.
Local Open Scope method_scope.

(** The instance variables, TOETD.cpp lines 11-15. *)
Record state : Type := mk {
  theta : list T;
  e : list T;
  n : Z;
  F : T;
  D : T;
  gamma : T
}.

Definition set_theta (s : state) (v : list T) : state :=
  {| theta := v; e := e s; n := n s; F := F s; D := D s; gamma := gamma s |}.
Definition set_e (s : state) (v : list T) : state :=
  {| theta := theta s; e := v; n := n s; F := F s; D := D s; gamma := gamma s |}.
Definition set_F (s : state) (x : T) : state :=
  {| theta := theta s; e := e s; n := n s; F := x; D := D s; gamma := gamma s |}.
Definition set_D (s : state) (x : T) : state :=
  {| theta := theta s; e := e s; n := n s; F := F s; D := x; gamma := gamma s |}.
Definition set_gamma (s : state) (x : T) : state :=
  {| theta := theta s; e := e s; n := n s; F := F s; D := D s; gamma := x |}.

Inductive array : Type :=
  | this_theta
  | this_e
  | caller (v : list T).

Definition deref (s : state) (a : array) : list T :=
  match a with
  | this_theta => theta s
  | this_e => e s
  | caller v => v
  end.

Definition rd (a : array) (i : nat) : method state T :=
  fun s =>
    match nth_error (deref s a) i with
    | Some x => Returns (x, s)
    | None => Undefined
    end.

Definition wr_e (i : nat) (x : T) : method state unit :=
  fun s =>
    match update (e s) i x with
    | Some v => Returns (tt, set_e s v)
    | None => Undefined
    end.

Definition wr_theta (i : nat) (x : T) : method state unit :=
  fun s =>
    match update (theta s) i x with
    | Some v => Returns (tt, set_theta s v)
    | None => Undefined
    end.

(** The constructor, TOETD.cpp lines 19-25.  The body never mentions its
    second parameter [I]. *)
Definition new (nArg : Z) (I : T) : outcome state :=
  if (nArg <? 0)%Z then Throws bad_array_new_length
  else Returns {| theta := repeat 0 (Z.to_nat nArg);
                  e := repeat 0 (Z.to_nat nArg);
                  n := nArg;
                  F := 0;
                  D := 0;
                  gamma := 0 |}.

(** [dot], TOETD.cpp lines 50-56. *)
Definition dot (v1 v2 : array) : method state T :=
  len <- gets n ;;
  for_upto len
    (fun i sum =>
       x <- rd v1 i ;;
       y <- rd v2 i ;;
       ret (sum + x * y))
    0.

(** [predict], TOETD.cpp lines 46-48. *)
Definition predict (phi : list T) : method state T :=
  dot this_theta (caller phi).

(** The body of the loop, TOETD.cpp lines 36-39, at index [i]; [newD] is
    the loop-carried local. *)
Definition learn_body (phi phiPrime : list T)
    (alpha lambda rho delta M S : T) (i : nat) (newD : T)
    : method state T :=
  e_i <- rd this_e i ;;
  gamma_ <- gets gamma ;;
  phi_i <- rd (caller phi) i ;;
  wr_e i (rho * gamma_ * lambda * e_i + S * phi_i) ;;
  e_i' <- rd this_e i ;;
  D_ <- gets D ;;
  phi_i' <- rd (caller phi) i ;;
  let Delta_i := delta * e_i' + D_ * (e_i' - rho * alpha * M * phi_i') in
  theta_i <- rd this_theta i ;;
  wr_theta i (theta_i + Delta_i) ;;
  phiPrime_i <- rd (caller phiPrime) i ;;
  ret (newD + Delta_i * phiPrime_i).

(** [learn], TOETD.cpp lines 27-44. *)
Definition learn (alpha I lambda : T) (phi : list T) (rho R : T)
    (phiPrime : list T) (gammaPrime : T) : method state unit :=
  d1 <- dot this_theta (caller phiPrime) ;;
  d2 <- dot this_theta (caller phi) ;;
  let delta := R + gammaPrime * d1 - d2 in
  modify (fun s => set_F s (F s + I)) ;;
  F_ <- gets F ;;
  let M := lambda * I + (1 - lambda) * F_ in
  gamma_ <- gets gamma ;;
  d3 <- dot (caller phi) this_e ;;
  let S := rho * alpha * M * (1 - rho * gamma_ * lambda * d3) in
  len <- gets n ;;
  newD <- for_upto len (learn_body phi phiPrime alpha lambda rho delta M S) 0 ;;
  modify (fun s => set_D s newD) ;;
  modify (fun s => set_F s (F s * (rho * gammaPrime))) ;;
  modify (fun s => set_gamma s gammaPrime).

(** The arguments of one call of [learn], in the order of the source. *)
Record args : Type := call {
  alpha : T;
  I : T;
  lambda : T;
  phi : list T;
  rho : T;
  R : T;
  phiPrime : list T;
  gammaPrime : T
}.

Definition learn_args (a : args) : method state unit :=
  learn (alpha a) (I a) (lambda a) (phi a) (rho a) (R a) (phiPrime a)
        (gammaPrime a).

(** A sequence of [learn] calls on one object. *)
Fixpoint learns (calls : list args) : method state unit :=
  match calls with
  | [] => ret tt
  | a :: calls' => learn_args a ;; learns calls'
  end.

(** A client's use of an object: [learn] and [predict] calls in any
    order; the values the [predict] calls return are collected. *)
Inductive request : Type :=
  | Learn (a : args)
  | Predict (fvec : list T).

Fixpoint serve (reqs : list request) : method state (list T) :=
  match reqs with
  | [] => ret []
  | Learn a :: reqs' => learn_args a ;; serve reqs'
  | Predict fvec :: reqs' =>
      v <- predict fvec ;;
      vs <- serve reqs' ;;
      ret (v :: vs)
  end.

(** Construct an object with interest parameter [I0] and run a method of
    it. *)
Definition session {A : Type} (nArg : Z) (I0 : T) (c : method state A)
    : outcome (A * state) :=
  match new nArg I0 with
  | Returns s => c s
  | Throws x => Throws x
  | Undefined => Undefined
  end.

End Class.
Arguments state T : clear implicits.
Arguments args T : clear implicits.
Arguments array T : clear implicits.
Arguments request T : clear implicits.
End TOETD.

(** ** What the loops compute

    The closed forms of the two loops of the source, over any scalar type and
    in the operation order of the source. *)

Section Functional.
Context {T : Type} `{Scalar T}.
Local Open Scope scalar_scope.

Fixpoint zipWith (f : T -> T -> T) (u v : list T) : list T :=
  match u, v with
  | x :: u', y :: v' => f x y :: zipWith f u' v'
  | _, _ => []
  end.

(** The accumulation [ret += v1[i]*v2[i]] from left to right. *)
Fixpoint dot_acc (acc : T) (v1 v2 : list T) : T :=
  match v1, v2 with
  | x :: v1', y :: v2' => dot_acc (acc + x * y) v1' v2'
  | _, _ => acc
  end.

(** The object [learn] leaves behind when every array has at least [n]
    components, ETD.cpp lines 41-57. *)
Definition ETD_step (s : ETD.state T) (a : ETD.args T) : ETD.state T :=
  let len := Z.to_nat (ETD.n s) in
  let phi := firstn len (ETD.phi a) in
  let phi_p := firstn len (ETD.phi_p a) in
  let alpha := ETD.alpha a in
  let gamma := ETD.gamma a in
  let lambda := ETD.lambda a in
  let rho := ETD.rho a in
  let F1 := ETD.F s + ETD.I a in
  let delta := ETD.r a + ETD.gamma_p a * dot_acc 0 (ETD.theta s) phi_p
               - dot_acc 0 (ETD.theta s) phi in
  let M := lambda * ETD.I a + (1 - lambda) * F1 in
  let S_ := rho * alpha * M * (1 - rho * gamma * lambda * dot_acc 0 phi (ETD.e s)) in
  let e' := zipWith (fun e_i phi_i => rho * gamma * lambda * e_i + S_ * phi_i)
                    (ETD.e s) phi in
  let deltas := zipWith (fun e_i phi_i =>
                           delta * e_i + ETD.D s * (e_i - rho * alpha * M * phi_i))
                        e' phi in
  {| ETD.n := ETD.n s;
     ETD.theta := zipWith add (ETD.theta s) deltas;
     ETD.e := e';
     ETD.F := F1 * (rho * ETD.gamma_p a);
     ETD.D := fold_left add (zipWith mul deltas phi_p) 0 |}.

(** The same for [TOETD::learn], TOETD.cpp lines 30-43. *)
Definition TOETD_step (s : TOETD.state T) (a : TOETD.args T) : TOETD.state T :=
  let len := Z.to_nat (TOETD.n s) in
  let phi := firstn len (TOETD.phi a) in
  let phiPrime := firstn len (TOETD.phiPrime a) in
  let alpha := TOETD.alpha a in
  let gamma := TOETD.gamma s in
  let lambda := TOETD.lambda a in
  let rho := TOETD.rho a in
  let delta := TOETD.R a + TOETD.gammaPrime a * dot_acc 0 (TOETD.theta s) phiPrime
               - dot_acc 0 (TOETD.theta s) phi in
  let F1 := TOETD.F s + TOETD.I a in
  let M := lambda * TOETD.I a + (1 - lambda) * F1 in
  let S_ := rho * alpha * M * (1 - rho * gamma * lambda * dot_acc 0 phi (TOETD.e s)) in
  let e' := zipWith (fun e_i phi_i => rho * gamma * lambda * e_i + S_ * phi_i)
                    (TOETD.e s) phi in
  let deltas := zipWith (fun e_i phi_i =>
                           delta * e_i + TOETD.D s * (e_i - rho * alpha * M * phi_i))
                        e' phi in
  {| TOETD.theta := zipWith add (TOETD.theta s) deltas;
     TOETD.e := e';
     TOETD.n := TOETD.n s;
     TOETD.F := F1 * (rho * TOETD.gammaPrime a);
     TOETD.D := fold_left add (zipWith mul deltas phiPrime) 0;
     TOETD.gamma := TOETD.gammaPrime a |}.

(** The class invariant: both arrays of the object have [n] components. *)
Definition ETD_wf (s : ETD.state T) : Prop :=
  (0 <= ETD.n s)%Z /\
  length (ETD.theta s) = Z.to_nat (ETD.n s) /\
  length (ETD.e s) = Z.to_nat (ETD.n s).

Definition TOETD_wf (s : TOETD.state T) : Prop :=
  (0 <= TOETD.n s)%Z /\
  length (TOETD.theta s) = Z.to_nat (TOETD.n s) /\
  length (TOETD.e s) = Z.to_nat (TOETD.n s).

(** A call all of whose arrays have exactly [len] components. *)
Definition ETD_fits (len : Z) (a : ETD.args T) : Prop :=
  length (ETD.phi a) = Z.to_nat len /\ length (ETD.phi_p a) = Z.to_nat len.

Definition TOETD_fits (len : Z) (a : TOETD.args T) : Prop :=
  length (TOETD.phi a) = Z.to_nat len /\ length (TOETD.phiPrime a) = Z.to_nat len.

(** The caller-visible part of an object: weights, trace, followon, dual. *)
Definition ETD_view (s : ETD.state T) : list T * list T * T * T :=
  (ETD.theta s, ETD.e s, ETD.F s, ETD.D s).

Definition TOETD_view (s : TOETD.state T) : list T * list T * T * T :=
  (TOETD.theta s, TOETD.e s, TOETD.F s, TOETD.D s).

(** The [TOETD::learn] call that corresponds to an [ETD::learn] call: the
    same transition without the [gamma] argument. *)
Definition TOETD_of (a : ETD.args T) : TOETD.args T :=
  {| TOETD.alpha := ETD.alpha a;
     TOETD.I := ETD.I a;
     TOETD.lambda := ETD.lambda a;
     TOETD.phi := ETD.phi a;
     TOETD.rho := ETD.rho a;
     TOETD.R := ETD.r a;
     TOETD.phiPrime := ETD.phi_p a;
     TOETD.gammaPrime := ETD.gamma_p a |}.

(** The [gamma] arguments of a sequence of [ETD::learn] calls are threaded
    from [g]: the first is [g], each later one is the [gamma_p] of the call
    before it. *)
Fixpoint threaded (g : T) (calls : list (ETD.args T)) : Prop :=
  match calls with
  | [] => True
  | a :: calls' => ETD.gamma a = g /\ threaded (ETD.gamma_p a) calls'
  end.

End Functional.

(** ** The specification's Learner (sections 3 and 4), over the reals *)

Module Spec.
Local Open Scope R_scope.

Record Learner : Type := {
  dimension : Z;
  weights : list R;
  trace : list R;
  followon : R;
  dual : R
}.

(** Section 4.1. *)
Definition new (dim : Z) : Learner :=
  {| dimension := dim;
     weights := repeat 0 (Z.to_nat dim);
     trace := repeat 0 (Z.to_nat dim);
     followon := 0;
     dual := 0 |}.

Definition sum (v : list R) : R := fold_right Rplus 0 v.

(** Section 4.4: the sum of elementwise products. *)
Definition dot (v1 v2 : list R) : R := sum (zipWith Rmult v1 v2).

(** Section 4.2, step 2. *)
Definition td_error (L : Learner) (phi : list R) (reward : R)
    (phi_next : list R) (gamma_next : R) : R :=
  reward + gamma_next * dot (weights L) phi_next - dot (weights L) phi.

(** Section 4.2, steps 1 to 6. *)
Definition learn (L : Learner) (phi : list R) (reward : R) (phi_next : list R)
    (alpha gamma gamma_next interest lambda rho : R) : Learner :=
  let followon1 := followon L + interest in
  let delta := td_error L phi reward phi_next gamma_next in
  let M := lambda * interest + (1 - lambda) * followon1 in
  let S_ := rho * alpha * M * (1 - rho * gamma * lambda * dot phi (trace L)) in
  let trace' := zipWith (fun t p => rho * gamma * lambda * t + S_ * p) (trace L) phi in
  let delta_i := zipWith (fun t p => delta * t + dual L * (t - rho * alpha * M * p))
                         trace' phi in
  {| dimension := dimension L;
     weights := zipWith Rplus (weights L) delta_i;
     trace := trace';
     followon := followon1 * rho * gamma_next;
     dual := sum (zipWith Rmult delta_i phi_next) |}.

(** Section 4.3. *)
Definition predict (L : Learner) (features : list R) : R :=
  dot (weights L) features.
End Spec.

(** The Learner an [ETD] object stands for. *)
Definition Learner_of (s : ETD.state R) : Spec.Learner :=
  {| Spec.dimension := ETD.n s;
     Spec.weights := ETD.theta s;
     Spec.trace := ETD.e s;
     Spec.followon := ETD.F s;
     Spec.dual := ETD.D s |}.


(** Two [ETD::learn] calls that differ at most in the reward [r] and in the
    next feature array [phi_p]. *)
Definition same_drive {T : Type} (a b : ETD.args T) : Prop :=
  ETD.phi a = ETD.phi b /\
  ETD.alpha a = ETD.alpha b /\
  ETD.gamma a = ETD.gamma b /\
  ETD.gamma_p a = ETD.gamma_p b /\
  ETD.I a = ETD.I b /\
  ETD.lambda a = ETD.lambda b /\
  ETD.rho a = ETD.rho b.

(** ** Predicates on binary64 values

    A binary64 value is finite when it is neither a NaN nor an infinity; it
    is a zero when it is +0 or -0; two values are the same number when they
    are equal or both zeros; a value is not negative when [x < 0] is false
    (so a NaN is not negative). *)
Definition finite64 (x : float) : Prop := PrimFloat.is_finite x = true.

Definition zero64 (x : float) : Prop := PrimFloat.is_zero x = true.

Definition same64 (x y : float) : Prop := x = y \/ (zero64 x /\ zero64 y).

Definition nonneg64 (x : float) : Prop := PrimFloat.ltb x 0%float = false.

(** The same predicates on the specification of a value. *)
Definition SFzero (u : spec_float) : Prop :=
  match u with S754_zero _ => True | _ => False end.

Definition SFfinite (u : spec_float) : Prop :=
  match u with S754_zero _ | S754_finite _ _ _ => True | _ => False end.

Definition SFnonneg (u : spec_float) : Prop :=
  match u with S754_infinity true | S754_finite true _ _ => False | _ => True end.

Definition SFsame (u v : spec_float) : Prop :=
  match u, v with
  | S754_zero _, S754_zero _ => True
  | _, _ => u = v
  end.

(** * Properties *)

(** ** Arrays *)

Lemma nth_error_mid (A : Type) (p q : list A) (x : A) :
  nth_error (p ++ x :: q) (length p) = Some x.
Proof. induction p as [|y p IH]; simpl; auto. Qed.

Lemma update_mid (A : Type) (p q : list A) (x y : A) :
  update (p ++ x :: q) (length p) y = Some (p ++ y :: q).
Proof.
  induction p as [|z p IH]; simpl; auto.
  now rewrite IH.
Qed.

Lemma skipn_uncons (A : Type) (l : list A) (i : nat) :
  i < length l ->
  exists x, nth_error l i = Some x /\ skipn i l = x :: skipn (S i) l.
Proof.
  revert i; induction l as [|y l IH]; intros i Hi; simpl in Hi; [lia|].
  destruct i as [|i]; [exists y; split; reflexivity|].
  destruct (IH i) as [x [Hx Hs]]; [lia|].
  exists x; split; [exact Hx|exact Hs].
Qed.

Lemma firstn_skipn_uncons (A : Type) (l : list A) (i k : nat) :
  i + S k <= length l ->
  exists x, nth_error l i = Some x /\
            firstn (S k) (skipn i l) = x :: firstn k (skipn (S i) l).
Proof.
  intros Hi. destruct (@skipn_uncons A l i) as [x [Hx Hs]]; [lia|].
  exists x; split; [exact Hx|]. now rewrite Hs.
Qed.

Lemma update_length (A : Type) (v : list A) :
  forall (i : nat) (x : A) (v' : list A),
    update v i x = Some v' -> length v' = length v.
Proof.
  induction v as [|y v IH]; intros i x v' E; [discriminate|].
  destruct i as [|i]; cbn [update] in E.
  - inversion E; reflexivity.
  - destruct (update v i x) as [w|] eqn:Ew; [|discriminate].
    inversion E; subst. cbn [length]. f_equal. exact (IH i x w Ew).
Qed.

Lemma length_zipWith (T : Type) (f : T -> T -> T) (u v : list T) :
  length (zipWith f u v) = Nat.min (length u) (length v).
Proof.
  revert v; induction u as [|x u IH]; intros [|y v]; simpl; auto.
Qed.


Lemma zipWith_repeat_r (T : Type) (f : T -> T -> T) (c : T) (k : nat) (u : list T) :
  length u = k -> zipWith f u (repeat c k) = map (fun x => f x c) u.
Proof.
  intros <-. induction u as [|x u IH]; cbn [length repeat zipWith map]; congruence.
Qed.


Lemma zipWith_map_r (T : Type) (f : T -> T -> T) (h : T -> T) (u v : list T) :
  zipWith f u (map h v) = zipWith (fun x y => f x (h y)) u v.
Proof.
  revert v; induction u as [|x u IH]; intros [|y v]; cbn [map zipWith]; congruence.
Qed.


Lemma zipWith_ext (T : Type) (f g : T -> T -> T) (u v : list T) :
  (forall x y, f x y = g x y) -> zipWith f u v = zipWith g u v.
Proof.
  intros Hfg; revert v; induction u as [|x u IH]; intros [|y v]; cbn [zipWith];
    try reflexivity.
  now rewrite Hfg, IH.
Qed.

Lemma zipWith_const (T : Type) (f : T -> T -> T) (c : T) (u v : list T) :
  (forall x y, f x y = c) ->
  length v = length u ->
  zipWith f u v = repeat c (length u).
Proof.
  intros Hf; revert v; induction u as [|x u IH]; intros [|y v] Hl;
    cbn [zipWith length repeat] in *; try discriminate; try reflexivity.
  rewrite Hf, IH by lia. reflexivity.
Qed.

Lemma map_const (T : Type) (h : T -> T) (c : T) (u : list T) :
  (forall x, h x = c) -> map h u = repeat c (length u).
Proof.
  intros Hh; induction u as [|x u IH]; cbn [map length repeat]; congruence.
Qed.

(** ** Invariants of methods *)

Section Method_invariants.
Context {St : Type} (P : St -> Prop).

Lemma preserves_ret (A : Type) (a : A) : preserves P (@ret St A a).
Proof. intros s a' s' HP E. inversion E; subst; exact HP. Qed.

Lemma preserves_gets (A : Type) (f : St -> A) : preserves P (gets f).
Proof. intros s a' s' HP E. inversion E; subst; exact HP. Qed.

Lemma preserves_modify (f : St -> St) :
  (forall s, P s -> P (f s)) -> preserves P (modify f).
Proof. intros Hf s a' s' HP E. inversion E; subst; auto. Qed.

Lemma preserves_bind (A B : Type) (c : method St A) (k : A -> method St B) :
  preserves P c -> (forall a, preserves P (k a)) -> preserves P (bind c k).
Proof.
  intros Hc Hk s b s' HP E. unfold bind in E.
  destruct (c s) as [[a s1]|x|] eqn:Ec; try discriminate.
  exact (Hk a s1 b s' (Hc s a s1 HP Ec) E).
Qed.

Lemma preserves_for_loop (A : Type) (body : nat -> A -> method St A) :
  (forall i acc, preserves P (body i acc)) ->
  forall count i acc, preserves P (for_loop count i body acc).
Proof.
  intros Hbody; induction count as [|count IH]; intros i acc; cbn [for_loop].
  - apply preserves_ret.
  - apply preserves_bind; [apply Hbody|intros a; apply IH].
Qed.

Lemma never_throws_ret (A : Type) (a : A) : never_throws (@ret St A a).
Proof. intros s x; discriminate. Qed.

Lemma never_throws_gets (A : Type) (f : St -> A) : never_throws (gets f).
Proof. intros s x; discriminate. Qed.

Lemma never_throws_modify (f : St -> St) : never_throws (modify f).
Proof. intros s x; discriminate. Qed.

Lemma never_throws_bind (A B : Type) (c : method St A) (k : A -> method St B) :
  never_throws c -> (forall a, never_throws (k a)) -> never_throws (bind c k).
Proof.
  intros Hc Hk s x. unfold bind.
  destruct (c s) as [[a s1]|y|] eqn:Ec; [apply Hk| |discriminate].
  exfalso; exact (Hc s y Ec).
Qed.

Lemma never_throws_for_loop (A : Type) (body : nat -> A -> method St A) :
  (forall i acc, never_throws (body i acc)) ->
  forall count i acc, never_throws (for_loop count i body acc).
Proof.
  intros Hbody; induction count as [|count IH]; intros i acc; cbn [for_loop].
  - apply never_throws_ret.
  - apply never_throws_bind; [apply Hbody|intros a; apply IH].
Qed.

End Method_invariants.

(** ** The methods of [ETD] on a well-formed object *)

(** One step of symbolic execution of a method of [ETD]. *)
Ltac ETD_exec :=
  unfold bind, ret, gets, modify, ETD.rd, ETD.wr_e, ETD.wr_theta,
    ETD.set_theta, ETD.set_e, ETD.set_F, ETD.set_D;
  cbn [ETD.deref ETD.n ETD.theta ETD.e ETD.F ETD.D].

Section ETD_methods.
Context {T : Type} `{Scalar T}.
Local Open Scope scalar_scope.

Lemma ETD_dot_loop (a1 a2 : ETD.array T) (s : ETD.state T) :
  forall (k i : nat) (acc : T),
    i + k <= length (ETD.deref s a1) ->
    i + k <= length (ETD.deref s a2) ->
    for_loop k i
      (fun i ret_ =>
         bind (ETD.rd a1 i) (fun x =>
         bind (ETD.rd a2 i) (fun y => ret (ret_ + x * y)))) acc s
    = Returns (dot_acc acc (firstn k (skipn i (ETD.deref s a1)))
                           (firstn k (skipn i (ETD.deref s a2))), s).
Proof.
  induction k as [|k IH]; intros i acc H1 H2.
  - reflexivity.
  - destruct (@firstn_skipn_uncons T (ETD.deref s a1) i k) as [x [Hx Ex]]; [lia|].
    destruct (@firstn_skipn_uncons T (ETD.deref s a2) i k) as [y [Hy Ey]]; [lia|].
    rewrite Ex, Ey. cbn [for_loop dot_acc].
    unfold bind at 1 2 3, ETD.rd, ret. rewrite Hx, Hy.
    apply IH; lia.
Qed.

Lemma ETD_dot_returns (a1 a2 : ETD.array T) (s : ETD.state T) :
  Z.to_nat (ETD.n s) <= length (ETD.deref s a1) ->
  Z.to_nat (ETD.n s) <= length (ETD.deref s a2) ->
  ETD.dot a1 a2 s
  = Returns (dot_acc 0 (firstn (Z.to_nat (ETD.n s)) (ETD.deref s a1))
                       (firstn (Z.to_nat (ETD.n s)) (ETD.deref s a2)), s).
Proof.
  intros H1 H2. unfold ETD.dot, for_upto, bind at 1, gets.
  now rewrite ETD_dot_loop by lia.
Qed.

Lemma ETD_learn_loop (phi phi_p : list T) (alpha gamma lambda rho delta M S_ : T) :
  forall (k : nat) (pe es pt ths : list T) (acc : T) (s : ETD.state T),
    ETD.e s = pe ++ es ->
    ETD.theta s = pt ++ ths ->
    length pt = length pe ->
    length es = k ->
    length ths = k ->
    length pe + k <= length phi ->
    length pe + k <= length phi_p ->
    for_loop k (length pe)
      (ETD.learn_body phi phi_p alpha gamma lambda rho delta M S_) acc s
    = let phis := firstn k (skipn (length pe) phi) in
      let pps := firstn k (skipn (length pe) phi_p) in
      let e' := zipWith (fun e_i phi_i => rho * gamma * lambda * e_i + S_ * phi_i)
                        es phis in
      let deltas := zipWith (fun e_i phi_i =>
                               delta * e_i + ETD.D s * (e_i - rho * alpha * M * phi_i))
                            e' phis in
      Returns (fold_left add (zipWith mul deltas pps) acc,
               {| ETD.n := ETD.n s;
                  ETD.theta := pt ++ zipWith add ths deltas;
                  ETD.e := pe ++ e';
                  ETD.F := ETD.F s;
                  ETD.D := ETD.D s |}).
Proof.
  induction k as [|k IH]; intros pe es pt ths acc s He Ht Hp Hes Hths Hphi Hpp.
  - destruct es; [|discriminate]. destruct ths; [|discriminate].
    destruct s as [n0 th0 e0 F0 D0]; simpl in *. subst. reflexivity.
  - destruct es as [|e_i es]; [discriminate|].
    destruct ths as [|theta_i ths]; [discriminate|].
    destruct (@firstn_skipn_uncons T phi (length pe) k) as [phi_i [Hx Ex]]; [lia|].
    destruct (@firstn_skipn_uncons T phi_p (length pe) k) as [pp_i [Hy Ey]]; [lia|].
    cbv zeta. rewrite Ex, Ey. cbn [for_loop zipWith fold_left].
    destruct s as [n0 th0 e0 F0 D0]. cbn [ETD.e ETD.theta] in He, Ht. subst e0 th0.
    unfold ETD.learn_body at 1.
    ETD_exec. rewrite nth_error_mid.
    ETD_exec. rewrite Hx.
    ETD_exec. rewrite update_mid.
    ETD_exec. rewrite nth_error_mid.
    ETD_exec. rewrite <- Hp, nth_error_mid.
    ETD_exec. rewrite update_mid.
    ETD_exec. rewrite Hp, Hy.
    ETD_exec.
    set (e_i' := rho * gamma * lambda * e_i + S_ * phi_i).
    set (delta_i := delta * e_i' + D0 * (e_i' - rho * alpha * M * phi_i)).
    replace (S (length pe)) with (length (pe ++ [e_i']))
      by (rewrite length_app; simpl; lia).
    rewrite (IH (pe ++ [e_i']) es (pt ++ [theta_i + delta_i]) ths).
    + cbv zeta. cbn [ETD.n ETD.e ETD.theta ETD.F ETD.D].
      now rewrite <- !app_assoc.
    + cbn [ETD.e]. now rewrite <- app_assoc.
    + cbn [ETD.theta]. now rewrite <- app_assoc.
    + rewrite !length_app; simpl; lia.
    + simpl in Hes; lia.
    + simpl in Hths; lia.
    + rewrite length_app; simpl; lia.
    + rewrite length_app; simpl; lia.
Qed.

Lemma ETD_learn_returns (s : ETD.state T) (a : ETD.args T) :
  ETD_wf s ->
  Z.to_nat (ETD.n s) <= length (ETD.phi a) ->
  Z.to_nat (ETD.n s) <= length (ETD.phi_p a) ->
  ETD.learn_args a s = Returns (tt, ETD_step s a).
Proof.
  intros (Hn & Hth & He) Hphi Hpp.
  destruct a as [phi r phi_p alpha gamma gamma_p I lambda rho].
  destruct s as [n0 th0 e0 F0 D0].
  unfold ETD_step, ETD.learn_args, ETD.learn, ETD.learn_scalars.
  cbn [ETD.phi ETD.r ETD.phi_p ETD.alpha ETD.gamma ETD.gamma_p ETD.I
       ETD.lambda ETD.rho ETD.n ETD.theta ETD.e ETD.F ETD.D] in *.
  ETD_exec.
  rewrite ETD_dot_returns by (cbn [ETD.deref ETD.n ETD.theta]; lia). ETD_exec.
  rewrite ETD_dot_returns by (cbn [ETD.deref ETD.n ETD.theta]; lia). ETD_exec.
  rewrite ETD_dot_returns by (cbn [ETD.deref ETD.n ETD.e]; lia). ETD_exec.
  unfold for_upto.
  rewrite (@ETD_learn_loop _ _ _ _ _ _ _ _ _ (Z.to_nat n0) [] e0 [] th0);
    try reflexivity; cbn [ETD.e ETD.theta length Nat.add]; try lia.
  cbv zeta. cbn [skipn length app ETD.n ETD.D ETD.F].
  rewrite !(@firstn_all2 T (Z.to_nat n0) th0), !(@firstn_all2 T (Z.to_nat n0) e0) by lia.
  reflexivity.
Qed.

Lemma ETD_step_wf (s : ETD.state T) (a : ETD.args T) :
  ETD_wf s ->
  Z.to_nat (ETD.n s) <= length (ETD.phi a) ->
  ETD_wf (ETD_step s a) /\ ETD.n (ETD_step s a) = ETD.n s.
Proof.
  intros (Hn & Hth & He) Hphi. unfold ETD_wf, ETD_step.
  cbn [ETD.n ETD.theta ETD.e].
  rewrite !length_zipWith, !length_firstn. repeat split; lia.
Qed.

Lemma ETD_learns_returns (calls : list (ETD.args T)) :
  forall s : ETD.state T,
    ETD_wf s ->
    Forall (ETD_fits (ETD.n s)) calls ->
    ETD.learns calls s = Returns (tt, fold_left ETD_step calls s) /\
    ETD_wf (fold_left ETD_step calls s) /\
    ETD.n (fold_left ETD_step calls s) = ETD.n s.
Proof.
  induction calls as [|a calls IH]; intros s Hwf Hfit.
  - repeat split; [apply Hwf..].
  - inversion Hfit as [|a' calls' [Hphi Hpp] Hrest]; subst.
    destruct (@ETD_step_wf s a Hwf) as [Hwf' Hn']; [lia|].
    cbn [ETD.learns fold_left]. unfold bind.
    rewrite ETD_learn_returns by (assumption || lia).
    destruct (IH (ETD_step s a) Hwf') as (E & W & N).
    + now rewrite Hn'.
    + rewrite E. repeat split; [apply W..|]. now rewrite N.
Qed.

Lemma ETD_new_wf (len : Z) :
  (0 <= len)%Z ->
  exists s, ETD.new len = Returns s /\ ETD_wf s /\ ETD.n s = len.
Proof.
  intros Hlen. unfold ETD.new.
  destruct (Z.ltb_spec len 0) as [Hneg|_]; [lia|].
  eexists; split; [reflexivity|]. unfold ETD_wf; cbn [ETD.n ETD.theta ETD.e].
  rewrite !repeat_length. repeat split; lia.
Qed.

Lemma ETD_rd_preserves (P : ETD.state T -> Prop) (a : ETD.array T) (i : nat) :
  preserves P (ETD.rd a i).
Proof.
  intros s x s' HP E. unfold ETD.rd in E.
  destruct (nth_error (ETD.deref s a) i); inversion E; subst; exact HP.
Qed.

Lemma ETD_wr_e_preserves (len : Z) (i : nat) (x : T) :
  preserves (fun s => ETD_wf s /\ ETD.n s = len) (ETD.wr_e i x).
Proof.
  intros s u s' [(Hn & Hth & He) Hlen] E. unfold ETD.wr_e in E.
  destruct (update (ETD.e s) i x) as [v|] eqn:Ev; inversion E; subst.
  apply update_length in Ev. unfold ETD_wf, ETD.set_e; cbn [ETD.n ETD.theta ETD.e].
  repeat split; try assumption; lia.
Qed.

Lemma ETD_wr_theta_preserves (len : Z) (i : nat) (x : T) :
  preserves (fun s => ETD_wf s /\ ETD.n s = len) (ETD.wr_theta i x).
Proof.
  intros s u s' [(Hn & Hth & He) Hlen] E. unfold ETD.wr_theta in E.
  destruct (update (ETD.theta s) i x) as [v|] eqn:Ev; inversion E; subst.
  apply update_length in Ev. unfold ETD_wf, ETD.set_theta; cbn [ETD.n ETD.theta ETD.e].
  repeat split; try assumption; lia.
Qed.

Lemma ETD_rd_never_throws (a : ETD.array T) (i : nat) : never_throws (ETD.rd a i).
Proof. intros s x. unfold ETD.rd. destruct (nth_error (ETD.deref s a) i); discriminate. Qed.

Lemma ETD_wr_e_never_throws (i : nat) (x : T) : never_throws (ETD.wr_e i x).
Proof. intros s y. unfold ETD.wr_e. destruct (update (ETD.e s) i x); discriminate. Qed.

Lemma ETD_wr_theta_never_throws (i : nat) (x : T) : never_throws (ETD.wr_theta i x).
Proof. intros s y. unfold ETD.wr_theta. destruct (update (ETD.theta s) i x); discriminate. Qed.

Lemma ETD_dot_preserves (P : ETD.state T -> Prop) (v1 v2 : ETD.array T) :
  preserves P (ETD.dot v1 v2).
Proof.
  unfold ETD.dot, for_upto.
  apply preserves_bind; [apply preserves_gets|intros len].
  apply preserves_for_loop; intros i acc.
  repeat (apply preserves_bind; [apply ETD_rd_preserves|intro]).
  apply preserves_ret.
Qed.

Lemma ETD_dot_never_throws (v1 v2 : ETD.array T) : never_throws (ETD.dot v1 v2).
Proof.
  unfold ETD.dot, for_upto.
  apply never_throws_bind; [apply never_throws_gets|intros len].
  apply never_throws_for_loop; intros i acc.
  repeat (apply never_throws_bind; [apply ETD_rd_never_throws|intro]).
  apply never_throws_ret.
Qed.

Lemma ETD_learn_preserves (len : Z) (a : ETD.args T) :
  preserves (fun s => ETD_wf s /\ ETD.n s = len) (ETD.learn_args a).
Proof.
  unfold ETD.learn_args, ETD.learn, ETD.learn_scalars, ETD.learn_body, for_upto.
  repeat first
    [ apply preserves_ret
    | apply preserves_gets
    | apply ETD_dot_preserves
    | apply ETD_rd_preserves
    | apply ETD_wr_e_preserves
    | apply ETD_wr_theta_preserves
    | apply preserves_modify; intros s Hs; exact Hs
    | apply preserves_for_loop
    | apply preserves_bind
    | match goal with
      | |- forall _, _ => intro
      | |- preserves _ (match ?p with _ => _ end) => destruct p as [[? ?] ?]
      end ].
Qed.

Lemma ETD_learn_never_throws (a : ETD.args T) : never_throws (ETD.learn_args a).
Proof.
  unfold ETD.learn_args, ETD.learn, ETD.learn_scalars, ETD.learn_body, for_upto.
  repeat first
    [ apply never_throws_ret
    | apply never_throws_gets
    | apply never_throws_modify
    | apply ETD_dot_never_throws
    | apply ETD_rd_never_throws
    | apply ETD_wr_e_never_throws
    | apply ETD_wr_theta_never_throws
    | apply never_throws_for_loop
    | apply never_throws_bind
    | match goal with
      | |- forall _, _ => intro
      | |- never_throws (match ?p with _ => _ end) => destruct p as [[? ?] ?]
      end ].
Qed.

Lemma ETD_learns_preserves (len : Z) (calls : list (ETD.args T)) :
  preserves (fun s => ETD_wf s /\ ETD.n s = len) (ETD.learns calls).
Proof.
  induction calls as [|a calls IH]; cbn [ETD.learns].
  - apply preserves_ret.
  - apply preserves_bind; [apply ETD_learn_preserves|intros _; exact IH].
Qed.

End ETD_methods.

(** ** The methods of [TOETD] on a well-formed object *)

(** The same for the methods of [TOETD]. *)
Ltac TOETD_exec :=
  unfold bind, ret, gets, modify, TOETD.rd, TOETD.wr_e, TOETD.wr_theta,
    TOETD.set_theta, TOETD.set_e, TOETD.set_F, TOETD.set_D, TOETD.set_gamma;
  cbn [TOETD.deref TOETD.n TOETD.theta TOETD.e TOETD.F TOETD.D TOETD.gamma].

Section TOETD_methods.
Context {T : Type} `{Scalar T}.
Local Open Scope scalar_scope.

Lemma TOETD_dot_loop (a1 a2 : TOETD.array T) (s : TOETD.state T) :
  forall (k i : nat) (acc : T),
    i + k <= length (TOETD.deref s a1) ->
    i + k <= length (TOETD.deref s a2) ->
    for_loop k i
      (fun i ret_ =>
         bind (TOETD.rd a1 i) (fun x =>
         bind (TOETD.rd a2 i) (fun y => ret (ret_ + x * y)))) acc s
    = Returns (dot_acc acc (firstn k (skipn i (TOETD.deref s a1)))
                           (firstn k (skipn i (TOETD.deref s a2))), s).
Proof.
  induction k as [|k IH]; intros i acc H1 H2.
  - reflexivity.
  - destruct (@firstn_skipn_uncons T (TOETD.deref s a1) i k) as [x [Hx Ex]]; [lia|].
    destruct (@firstn_skipn_uncons T (TOETD.deref s a2) i k) as [y [Hy Ey]]; [lia|].
    rewrite Ex, Ey. cbn [for_loop dot_acc].
    unfold bind at 1 2 3, TOETD.rd, ret. rewrite Hx, Hy.
    apply IH; lia.
Qed.

Lemma TOETD_dot_returns (a1 a2 : TOETD.array T) (s : TOETD.state T) :
  Z.to_nat (TOETD.n s) <= length (TOETD.deref s a1) ->
  Z.to_nat (TOETD.n s) <= length (TOETD.deref s a2) ->
  TOETD.dot a1 a2 s
  = Returns (dot_acc 0 (firstn (Z.to_nat (TOETD.n s)) (TOETD.deref s a1))
                       (firstn (Z.to_nat (TOETD.n s)) (TOETD.deref s a2)), s).
Proof.
  intros H1 H2. unfold TOETD.dot, for_upto, bind at 1, gets.
  now rewrite TOETD_dot_loop by lia.
Qed.

Lemma TOETD_learn_loop (phi phi_p : list T) (alpha lambda rho delta M S_ : T) :
  forall (k : nat) (pe es pt ths : list T) (acc : T) (s : TOETD.state T),
    TOETD.e s = pe ++ es ->
    TOETD.theta s = pt ++ ths ->
    length pt = length pe ->
    length es = k ->
    length ths = k ->
    length pe + k <= length phi ->
    length pe + k <= length phi_p ->
    for_loop k (length pe)
      (TOETD.learn_body phi phi_p alpha lambda rho delta M S_) acc s
    = let phis := firstn k (skipn (length pe) phi) in
      let pps := firstn k (skipn (length pe) phi_p) in
      let e' := zipWith (fun e_i phi_i =>
                           rho * TOETD.gamma s * lambda * e_i + S_ * phi_i)
                        es phis in
      let deltas := zipWith (fun e_i phi_i =>
                               delta * e_i + TOETD.D s * (e_i - rho * alpha * M * phi_i))
                            e' phis in
      Returns (fold_left add (zipWith mul deltas pps) acc,
               {| TOETD.theta := pt ++ zipWith add ths deltas;
                  TOETD.e := pe ++ e';
                  TOETD.n := TOETD.n s;
                  TOETD.F := TOETD.F s;
                  TOETD.D := TOETD.D s;
                  TOETD.gamma := TOETD.gamma s |}).
Proof.
  induction k as [|k IH]; intros pe es pt ths acc s He Ht Hp Hes Hths Hphi Hpp.
  - destruct es; [|discriminate]. destruct ths; [|discriminate].
    destruct s as [th0 e0 n0 F0 D0 g0]; simpl in *. subst. reflexivity.
  - destruct es as [|e_i es]; [discriminate|].
    destruct ths as [|theta_i ths]; [discriminate|].
    destruct (@firstn_skipn_uncons T phi (length pe) k) as [phi_i [Hx Ex]]; [lia|].
    destruct (@firstn_skipn_uncons T phi_p (length pe) k) as [pp_i [Hy Ey]]; [lia|].
    cbv zeta. rewrite Ex, Ey. cbn [for_loop zipWith fold_left].
    destruct s as [th0 e0 n0 F0 D0 g0]. cbn [TOETD.e TOETD.theta] in He, Ht. subst e0 th0.
    unfold TOETD.learn_body at 1.
    TOETD_exec. rewrite nth_error_mid.
    TOETD_exec. rewrite Hx.
    TOETD_exec. rewrite update_mid.
    TOETD_exec. rewrite nth_error_mid.
    TOETD_exec. rewrite <- Hp, nth_error_mid.
    TOETD_exec. rewrite update_mid.
    TOETD_exec. rewrite Hp, Hy.
    TOETD_exec.
    set (e_i' := rho * g0 * lambda * e_i + S_ * phi_i).
    set (delta_i := delta * e_i' + D0 * (e_i' - rho * alpha * M * phi_i)).
    replace (S (length pe)) with (length (pe ++ [e_i']))
      by (rewrite length_app; simpl; lia).
    rewrite (IH (pe ++ [e_i']) es (pt ++ [theta_i + delta_i]) ths).
    + cbv zeta. cbn [TOETD.n TOETD.e TOETD.theta TOETD.F TOETD.D TOETD.gamma].
      now rewrite <- !app_assoc.
    + cbn [TOETD.e]. now rewrite <- app_assoc.
    + cbn [TOETD.theta]. now rewrite <- app_assoc.
    + rewrite !length_app; simpl; lia.
    + simpl in Hes; lia.
    + simpl in Hths; lia.
    + rewrite length_app; simpl; lia.
    + rewrite length_app; simpl; lia.
Qed.

Lemma TOETD_learn_returns (s : TOETD.state T) (a : TOETD.args T) :
  TOETD_wf s ->
  Z.to_nat (TOETD.n s) <= length (TOETD.phi a) ->
  Z.to_nat (TOETD.n s) <= length (TOETD.phiPrime a) ->
  TOETD.learn_args a s = Returns (tt, TOETD_step s a).
Proof.
  intros (Hn & Hth & He) Hphi Hpp.
  destruct a as [alpha I lambda phi rho R phiPrime gammaPrime].
  destruct s as [th0 e0 n0 F0 D0 g0].
  unfold TOETD_step, TOETD.learn_args, TOETD.learn.
  cbn [TOETD.phi TOETD.R TOETD.phiPrime TOETD.alpha TOETD.gamma TOETD.gammaPrime
       TOETD.I TOETD.lambda TOETD.rho TOETD.n TOETD.theta TOETD.e TOETD.F TOETD.D] in *.
  TOETD_exec.
  rewrite TOETD_dot_returns by (cbn [TOETD.deref TOETD.n TOETD.theta]; lia). TOETD_exec.
  rewrite TOETD_dot_returns by (cbn [TOETD.deref TOETD.n TOETD.theta]; lia). TOETD_exec.
  rewrite TOETD_dot_returns by (cbn [TOETD.deref TOETD.n TOETD.e]; lia). TOETD_exec.
  unfold for_upto.
  rewrite (@TOETD_learn_loop _ _ _ _ _ _ _ _ (Z.to_nat n0) [] e0 [] th0);
    try reflexivity; cbn [TOETD.e TOETD.theta length Nat.add]; try lia.
  cbv zeta. cbn [skipn length app TOETD.n TOETD.D TOETD.F TOETD.gamma].
  rewrite !(@firstn_all2 T (Z.to_nat n0) th0), !(@firstn_all2 T (Z.to_nat n0) e0) by lia.
  reflexivity.
Qed.

Lemma TOETD_step_wf (s : TOETD.state T) (a : TOETD.args T) :
  TOETD_wf s ->
  Z.to_nat (TOETD.n s) <= length (TOETD.phi a) ->
  TOETD_wf (TOETD_step s a) /\ TOETD.n (TOETD_step s a) = TOETD.n s.
Proof.
  intros (Hn & Hth & He) Hphi. unfold TOETD_wf, TOETD_step.
  cbn [TOETD.n TOETD.theta TOETD.e].
  rewrite !length_zipWith, !length_firstn. repeat split; lia.
Qed.

Lemma TOETD_new_wf (len : Z) (I0 : T) :
  (0 <= len)%Z ->
  exists s, TOETD.new len I0 = Returns s /\ TOETD_wf s /\ TOETD.n s = len /\
            TOETD.gamma s = 0.
Proof.
  intros Hlen. unfold TOETD.new.
  destruct (Z.ltb_spec len 0) as [Hneg|_]; [lia|].
  eexists; split; [reflexivity|]. unfold TOETD_wf; cbn [TOETD.n TOETD.theta TOETD.e].
  rewrite !repeat_length. repeat split; lia.
Qed.

End TOETD_methods.

(** ** The closed forms over the reals *)

Section Reals.
Local Open Scope R_scope.

Lemma fold_left_add_R (l : list R) (acc : R) :
  fold_left (@add R R_Scalar) l acc = acc + Spec.sum l.
Proof.
  revert acc; induction l as [|x l IH]; intros acc; cbn [fold_left Spec.sum fold_right].
  - ring.
  - rewrite IH. unfold Spec.sum. cbn [add R_Scalar]. ring.
Qed.

Lemma dot_acc_R (u v : list R) (acc : R) :
  dot_acc acc u v = acc + Spec.dot u v.
Proof.
  revert v acc; induction u as [|x u IH]; intros [|y v] acc;
    unfold Spec.dot; cbn [dot_acc zipWith Spec.sum fold_right]; try ring.
  rewrite IH. unfold Spec.dot, Spec.sum. cbn [add mul R_Scalar]. ring.
Qed.

Lemma dot_acc_0_R (u v : list R) : dot_acc (@zero R R_Scalar) u v = Spec.dot u v.
Proof. rewrite dot_acc_R. cbn [zero R_Scalar]. ring. Qed.

(** On a well-formed object and arrays of the object's dimension, the
    closed form of [ETD::learn] is the update of section 4.2. *)
Lemma ETD_step_refines (s : ETD.state R) (a : ETD.args R) :
  ETD_wf s ->
  ETD_fits (ETD.n s) a ->
  Learner_of (ETD_step s a)
  = Spec.learn (Learner_of s) (ETD.phi a) (ETD.r a) (ETD.phi_p a) (ETD.alpha a)
               (ETD.gamma a) (ETD.gamma_p a) (ETD.I a) (ETD.lambda a) (ETD.rho a).
Proof.
  intros (Hn & Hth & He) (Hphi & Hpp).
  unfold ETD_step, Spec.learn, Spec.td_error, Learner_of.
  cbn [ETD.n ETD.theta ETD.e ETD.F ETD.D Spec.dimension Spec.weights
       Spec.trace Spec.followon Spec.dual].
  rewrite !(@firstn_all2 R _ (ETD.phi a)), !(@firstn_all2 R _ (ETD.phi_p a)) by lia.
  rewrite !dot_acc_0_R, fold_left_add_R.
  cbn [zero one add sub mul R_Scalar].
  f_equal; ring.
Qed.

Lemma dot_repeat_0_l (k : nat) (v : list R) : Spec.dot (repeat 0 k) v = 0.
Proof.
  revert v; induction k as [|k IH]; intros [|y v]; unfold Spec.dot;
    cbn [repeat zipWith Spec.sum fold_right]; try reflexivity.
  fold (Spec.sum (zipWith Rmult (repeat 0 k) v)). fold (Spec.dot (repeat 0 k) v).
  rewrite IH; ring.
Qed.


Lemma zipWith_Rplus_0_r (u : list R) (k : nat) :
  length u = k -> zipWith Rplus u (repeat 0 k) = u.
Proof.
  intros Hk. rewrite zipWith_repeat_r by exact Hk. rewrite <- (map_id u) at 2.
  apply map_ext; intros x; ring.
Qed.

End Reals.

(** ** The two variants side by side *)

Section Variants.
Context {T : Type} `{Scalar T}.
Local Open Scope scalar_scope.

Lemma step_simulation (s : ETD.state T) (t : TOETD.state T) (a : ETD.args T) :
  ETD.n s = TOETD.n t ->
  ETD_view s = TOETD_view t ->
  ETD.gamma a = TOETD.gamma t ->
  ETD.n (ETD_step s a) = TOETD.n (TOETD_step t (TOETD_of a)) /\
  ETD_view (ETD_step s a) = TOETD_view (TOETD_step t (TOETD_of a)) /\
  TOETD.gamma (TOETD_step t (TOETD_of a)) = ETD.gamma_p a.
Proof.
  destruct s as [n0 th0 e0 F0 D0], t as [th1 e1 n1 F1 D1 g1],
           a as [phi r phi_p alpha gamma gamma_p I lambda rho].
  unfold ETD_view, TOETD_view; cbn. intros Hn Hv Hg.
  inversion Hv; subst. repeat split.
Qed.

Lemma threaded_firstn (calls : list (ETD.args T)) :
  forall (g : T) (k : nat), threaded g calls -> threaded g (firstn k calls).
Proof.
  induction calls as [|a calls IH]; intros g [|k] Hthr; cbn [firstn threaded]; auto.
  destruct Hthr as [Hg Hrest]. split; [exact Hg|apply IH; exact Hrest].
Qed.

Lemma fits_firstn (len : Z) (calls : list (ETD.args T)) :
  forall k : nat, Forall (ETD_fits len) calls -> Forall (ETD_fits len) (firstn k calls).
Proof.
  induction calls as [|a calls IH]; intros [|k] Hfit; cbn [firstn]; auto.
  inversion Hfit; subst. constructor; auto.
Qed.

Lemma learns_simulation (calls : list (ETD.args T)) :
  forall (s : ETD.state T) (t : TOETD.state T),
    ETD_wf s -> TOETD_wf t ->
    ETD.n s = TOETD.n t ->
    ETD_view s = TOETD_view t ->
    threaded (TOETD.gamma t) calls ->
    Forall (ETD_fits (ETD.n s)) calls ->
    exists s' t',
      ETD.learns calls s = Returns (tt, s') /\
      TOETD.learns (map TOETD_of calls) t = Returns (tt, t') /\
      ETD_view s' = TOETD_view t'.
Proof.
  induction calls as [|a calls IH]; intros s t Ws Wt Hn Hv Hthr Hfit.
  - exists s, t. repeat split; assumption.
  - destruct Hthr as [Hg Hrest].
    inversion Hfit as [|a' calls' [Hphi Hpp] Hfit']; subst.
    destruct (@step_simulation s t a Hn Hv Hg) as (Hn' & Hv' & Hg').
    destruct (@ETD_step_wf _ _ s a Ws) as [Ws' Hns]; [lia|].
    destruct (@TOETD_step_wf _ _ t (TOETD_of a) Wt) as [Wt' Hnt];
      [cbn [TOETD_of TOETD.phi]; lia|].
    destruct (IH (ETD_step s a) (TOETD_step t (TOETD_of a))) as (s' & t' & Es & Et & V);
      try assumption.
    exists s', t'. cbn [ETD.learns TOETD.learns map]. unfold bind.
    rewrite ETD_learn_returns by (assumption || lia).
    rewrite TOETD_learn_returns
      by (assumption || (cbn [TOETD_of TOETD.phi TOETD.phiPrime]; lia)).
    repeat split; assumption.
Qed.

End Variants.

(** * The specified properties *)

(** C1.  On a well-formed object of dimension n and for arrays [phi] and
    [phi_p] of n components, [ETD::learn] returns, and the object it leaves
    is the one the update of section 4.2 prescribes: followon incremented by
    the interest, then delta, M and S, then the trace and the weights in
    every component, and at the end the new dual and the scaled followon. *)
Theorem ETD_learn_is_spec_update
    (s : ETD.state R) (phi : list R) (r : R) (phi_p : list R)
    (alpha gamma gamma_p I lambda rho : R) :
  ETD_wf s ->
  length phi = Z.to_nat (ETD.n s) ->
  length phi_p = Z.to_nat (ETD.n s) ->
  exists s' : ETD.state R,
    ETD.learn phi r phi_p alpha gamma gamma_p I lambda rho s = Returns (tt, s') /\
    Learner_of s'
    = Spec.learn (Learner_of s) phi r phi_p alpha gamma gamma_p I lambda rho.
Proof.
  intros Hwf Hphi Hpp.
  set (a := ETD.call phi r phi_p alpha gamma gamma_p I lambda rho).
  exists (ETD_step s a). split.
  - change (ETD.learn_args a s = Returns (tt, ETD_step s a)).
    apply ETD_learn_returns; [exact Hwf| |]; cbn [a ETD.phi ETD.phi_p]; lia.
  - apply (@ETD_step_refines s a Hwf). split; assumption.
Qed.

Lemma ETD_learn_is_spec_update_witness :
  exists s' : ETD.state R,
    (ETD.learn [1; 0] 1 [0; 1] 0.1 0.9 0.9 1 0 1 (ETD.mk 2%Z [0; 0] [0; 0] 0 0)
     = Returns (tt, s') /\
     Learner_of s'
     = Spec.learn (Learner_of (ETD.mk 2%Z [0; 0] [0; 0] 0 0))
                  [1; 0] 1 [0; 1] 0.1 0.9 0.9 1 0 1)%R.
Proof.
  apply ETD_learn_is_spec_update.
  - unfold ETD_wf; simpl; repeat split; lia.
  - reflexivity.
  - reflexivity.
Defined.

(** C2.  The scenario of the specification: on a fresh object of dimension
    2, the call [learn([1,0], 1, [0,1], 0.1, 0.9, 0.9, 1, 0, 1)] computes
    delta = 1 (with M = 1 and S = 0.1) on a followon of 1, and leaves
    weights = [0.1, 0], trace = [0.1, 0], followon = 0.9 and dual = 0.  This
    holds over the reals and, bit for bit, in binary64, where 0.1 and 0.9
    stand for the doubles nearest to them. *)
Theorem scenario_first_update :
  (ETD.session 2 (ETD.learn_scalars [1; 0] 1 [0; 1] 0.1 0.9 0.9 1 0 1)
   = Returns ((1, 1, 0.1), ETD.mk 2%Z [0; 0] [0; 0] 1 0) /\
   ETD.session 2 (ETD.learn [1; 0] 1 [0; 1] 0.1 0.9 0.9 1 0 1)
   = Returns (tt, ETD.mk 2%Z [0.1; 0] [0.1; 0] 0.9 0))%R
  /\
  (ETD.session 2 (ETD.learn_scalars [1; 0] 1 [0; 1] 0.1 0.9 0.9 1 0 1)
   = Returns ((1, 1, 0.1), ETD.mk 2%Z [0; 0] [0; 0] 1 0) /\
   ETD.session 2 (ETD.learn [1; 0] 1 [0; 1] 0.1 0.9 0.9 1 0 1)
   = Returns (tt, ETD.mk 2%Z [0.1; 0] [0.1; 0] 0.9 0))%float.
Proof.
  split; split.
  - cbv -[Rplus Rmult Rminus Rdiv Rinv IZR Q2R]. repeat f_equal; lra.
  - cbv -[Rplus Rmult Rminus Rdiv Rinv IZR Q2R]. repeat f_equal; lra.
  - vm_compute. reflexivity.
  - vm_compute. reflexivity.
Qed.

(** C3.  The two variants agree when gamma is threaded: for every dimension
    and every sequence of transitions whose arrays have that dimension, if
    the [gamma] argument of the first [ETD::learn] call is 0 and that of
    every later call is the [gamma_p] of the call before it, then after each
    call (after the first k calls, for every k) the fresh [ETD] object and
    the fresh [TOETD] object have both returned and hold the same weights,
    trace, followon and dual.  This holds for every scalar type, so for
    binary64 as well as for the reals. *)
Theorem ETD_TOETD_agree
    (T : Type) (ops : Scalar T) (len : Z) (I0 : T)
    (calls : list (ETD.args T)) (k : nat) :
  (0 <= len)%Z ->
  threaded zero calls ->
  Forall (ETD_fits len) calls ->
  exists (s : ETD.state T) (t : TOETD.state T),
    ETD.session len (ETD.learns (firstn k calls)) = Returns (tt, s) /\
    TOETD.session len I0 (TOETD.learns (map TOETD_of (firstn k calls)))
    = Returns (tt, t) /\
    ETD.theta s = TOETD.theta t /\
    ETD.e s = TOETD.e t /\
    ETD.F s = TOETD.F t /\
    ETD.D s = TOETD.D t.
Proof.
  intros Hlen Hthr Hfit.
  destruct (@ETD_new_wf T ops len Hlen) as (s0 & Es0 & Ws0 & Hn0).
  destruct (@TOETD_new_wf T ops len I0 Hlen) as (t0 & Et0 & Wt0 & Hm0 & Hg0).
  assert (Hv0 : ETD_view s0 = TOETD_view t0).
  { unfold ETD.new in Es0. unfold TOETD.new in Et0.
    destruct (len <? 0)%Z; [discriminate|].
    inversion Es0; inversion Et0; reflexivity. }
  destruct (@learns_simulation T ops (firstn k calls) s0 t0) as (s & t & Es & Et & V);
    try assumption.
  - congruence.
  - rewrite Hg0. apply threaded_firstn; exact Hthr.
  - rewrite Hn0. apply fits_firstn; exact Hfit.
  - exists s, t. unfold ETD.session, TOETD.session. rewrite Es0, Et0.
    unfold ETD_view, TOETD_view in V. inversion V.
    repeat split; assumption.
Qed.

Lemma ETD_TOETD_agree_witness :
  exists (s : ETD.state R) (t : TOETD.state R),
    (ETD.session 1
       (ETD.learns (firstn 2 [ETD.call [1] 1 [1] 1 0 1 1 1 1;
                              ETD.call [0] 0 [0] 1 1 0 1 1 1]))
     = Returns (tt, s) /\
     TOETD.session 1 5
       (TOETD.learns (map TOETD_of
                          (firstn 2 [ETD.call [1] 1 [1] 1 0 1 1 1 1;
                                     ETD.call [0] 0 [0] 1 1 0 1 1 1])))
     = Returns (tt, t) /\
     ETD.theta s = TOETD.theta t /\
     ETD.e s = TOETD.e t /\
     ETD.F s = TOETD.F t /\
     ETD.D s = TOETD.D t)%R.
Proof.
  apply ETD_TOETD_agree.
  - lia.
  - simpl. repeat split; reflexivity.
  - repeat constructor.
Defined.

(** C4, as the specification states it, fails on the code: nothing is
    validated.  Construction with dimension 0 returns an object; on an object
    of dimension 1, [learn] with arrays of two components returns and changes
    the weights and the trace, and [predict] with an array of two components
    returns a value. *)
Lemma no_argument_validation_counterexample :
  (ETD.new (T := R) 0 = Returns (ETD.mk 0%Z [] [] 0 0) /\
   ETD.learn [1; 5] 1 [0; 8] 1 0 0 1 0 1 (ETD.mk 1%Z [0] [0] 0 0)
   = Returns (tt, ETD.mk 1%Z [1] [1] 0 0) /\
   ETD.mk 1%Z [1] [1] 0 0 <> ETD.mk 1%Z [0] [0] 0 0 /\
   ETD.predict [1; 5] (ETD.mk 1%Z [1] [1] 0 0)
   = Returns (1, ETD.mk 1%Z [1] [1] 0 0))%R.
Proof.
  repeat split.
  - cbv -[Rplus Rmult Rminus Rdiv Rinv IZR Q2R]. repeat f_equal; lra.
  - intros E. inversion E; lra.
  - cbv -[Rplus Rmult Rminus Rdiv Rinv IZR Q2R]. repeat f_equal; lra.
Qed.

(** C4, amended.  The code has no [InvalidArgument] and validates nothing:
    the constructor never raises it and dimension 0 yields an object with
    empty weights and trace; [learn] and [predict] raise no exception at
    all, and on a well-formed object of dimension n they return whenever
    every array argument has at least n components, using the first n
    components of each and ignoring the rest. *)
Theorem methods_validate_nothing
    (T : Type) (ops : Scalar T) (s : ETD.state T) (a : ETD.args T)
    (fvec : list T) :
  ETD_wf s ->
  Z.to_nat (ETD.n s) <= length (ETD.phi a) ->
  Z.to_nat (ETD.n s) <= length (ETD.phi_p a) ->
  Z.to_nat (ETD.n s) <= length fvec ->
  ETD.learn_args a s = Returns (tt, ETD_step s a) /\
  ETD.predict fvec s
  = Returns (dot_acc zero (ETD.theta s) (firstn (Z.to_nat (ETD.n s)) fvec), s) /\
  ETD.new (T := T) 0 = Returns (ETD.mk 0%Z [] [] zero zero) /\
  (forall len : Z, ETD.new (T := T) len <> Throws InvalidArgument) /\
  (forall a' s' x, ETD.learn_args a' s' <> Throws x) /\
  (forall fvec' s' x, ETD.predict fvec' s' <> Throws x).
Proof.
  intros Hwf Hphi Hpp Hf. repeat split.
  - apply ETD_learn_returns; assumption.
  - unfold ETD.predict. destruct Hwf as (Hn & Hth & He).
    rewrite ETD_dot_returns by (cbn [ETD.deref]; lia).
    cbn [ETD.deref]. now rewrite (@firstn_all2 T _ (ETD.theta s)) by lia.
  - intros len. unfold ETD.new. destruct (len <? 0)%Z; discriminate.
  - intros a' s' x. apply ETD_learn_never_throws.
  - intros fvec' s' x. apply ETD_dot_never_throws.
Qed.

Lemma methods_validate_nothing_witness :
  (ETD.learn_args (ETD.call [1; 5] 1 [0; 8] 1 0 0 1 0 1) (ETD.mk 1%Z [0] [0] 0 0)
   = Returns (tt, ETD_step (ETD.mk 1%Z [0] [0] 0 0)
                           (ETD.call [1; 5] 1 [0; 8] 1 0 0 1 0 1)) /\
   ETD.predict [1; 5] (ETD.mk 1%Z [0] [0] 0 0)
   = Returns (dot_acc zero [0] (firstn 1 [1; 5]), ETD.mk 1%Z [0] [0] 0 0) /\
   ETD.new (T := R) 0 = Returns (ETD.mk 0%Z [] [] zero zero) /\
   (forall len : Z, ETD.new (T := R) len <> Throws InvalidArgument) /\
   (forall a' s' x, ETD.learn_args (T := R) a' s' <> Throws x) /\
   (forall fvec' s' x, ETD.predict (T := R) fvec' s' <> Throws x))%R.
Proof.
  apply (@methods_validate_nothing R R_Scalar (ETD.mk 1%Z [0%R] [0%R] 0%R 0%R)
           (ETD.call [1; 5] 1 [0; 8] 1 0 0 1 0 1)%R [1; 5]%R).
  - unfold ETD_wf; simpl; repeat split; lia.
  - simpl; lia.
  - simpl; lia.
  - simpl; lia.
Defined.




(** Every object a session of [learn] calls leaves behind satisfies the class
    invariant. *)
Lemma ETD_reachable_wf (T : Type) (ops : Scalar T) (len : Z)
    (calls : list (ETD.args T)) (s : ETD.state T) :
  ETD.session len (ETD.learns calls) = Returns (tt, s) ->
  ETD_wf s /\ ETD.n s = len.
Proof.
  unfold ETD.session. intros E.
  destruct (Z.ltb_spec len 0) as [Hneg|Hpos].
  - unfold ETD.new in E. destruct (Z.ltb_spec len 0); [discriminate|lia].
  - destruct (@ETD_new_wf T ops len Hpos) as (s0 & E0 & W0 & N0).
    rewrite E0 in E.
    exact (@ETD_learns_preserves T ops len calls s0 tt s (conj W0 N0) E).
Qed.

(** C6.  Learning is deterministic: two objects freshly constructed with the
    same dimension, fed the same sequence of [learn] calls (arrays of that
    dimension), both return and hold identical weights.  This holds for
    every scalar type, so bit for bit in binary64. *)
Theorem learning_deterministic
    (T : Type) (ops : Scalar T) (len : Z) (calls : list (ETD.args T))
    (s1 s2 : ETD.state T) :
  ETD.new len = Returns s1 ->
  ETD.new len = Returns s2 ->
  Forall (ETD_fits len) calls ->
  exists s1' s2' : ETD.state T,
    ETD.learns calls s1 = Returns (tt, s1') /\
    ETD.learns calls s2 = Returns (tt, s2') /\
    ETD.theta s1' = ETD.theta s2'.
Proof.
  intros E1 E2 Hfit.
  assert (Hlen : (0 <= len)%Z).
  { unfold ETD.new in E1. destruct (Z.ltb_spec len 0); [discriminate|assumption]. }
  destruct (@ETD_new_wf T ops len Hlen) as (s0 & E0 & W0 & N0).
  assert (s1 = s0) by congruence. assert (s2 = s0) by congruence. subst s1 s2.
  destruct (@ETD_learns_returns T ops calls s0 W0) as (E & _ & _).
  - now rewrite N0.
  - exists (fold_left ETD_step calls s0), (fold_left ETD_step calls s0).
    repeat split; assumption.
Qed.

Lemma learning_deterministic_witness :
  exists s1' s2' : ETD.state float,
    (ETD.learns [ETD.call [1; 0] 1 [0; 1] 0.1 0.9 0.9 1 0 1;
                 ETD.call [0; 1] 2 [1; 0] 0.1 0.9 0.9 1 0.5 1]
                (ETD.mk 2%Z [0; 0] [0; 0] 0 0) = Returns (tt, s1') /\
     ETD.learns [ETD.call [1; 0] 1 [0; 1] 0.1 0.9 0.9 1 0 1;
                 ETD.call [0; 1] 2 [1; 0] 0.1 0.9 0.9 1 0.5 1]
                (ETD.mk 2%Z [0; 0] [0; 0] 0 0) = Returns (tt, s2') /\
     ETD.theta s1' = ETD.theta s2')%float.
Proof.
  apply (@learning_deterministic float binary64_Scalar 2%Z).
  - reflexivity.
  - reflexivity.
  - repeat constructor.
Defined.

(** C7.  On every object reached from a fresh one by a sequence of [learn]
    calls, [predict(f)] for an array of n components returns the dot product
    of the current weights with [f], the sum of the elementwise products,
    and leaves the object as it was. *)
Theorem predict_is_dot_of_weights
    (len : Z) (calls : list (ETD.args R)) (s : ETD.state R) (fvec : list R) :
  ETD.session len (ETD.learns calls) = Returns (tt, s) ->
  length fvec = Z.to_nat len ->
  ETD.predict fvec s = Returns (Spec.predict (Learner_of s) fvec, s).
Proof.
  intros Hrun Hf.
  destruct (@ETD_reachable_wf R R_Scalar len calls s Hrun) as [(Hn & Hth & He) Hlen].
  unfold ETD.predict, Spec.predict, Learner_of; cbn [Spec.weights].
  rewrite ETD_dot_returns by (cbn [ETD.deref]; lia).
  cbn [ETD.deref].
  rewrite (@firstn_all2 R _ (ETD.theta s)), (@firstn_all2 R _ fvec) by lia.
  now rewrite dot_acc_0_R.
Qed.

Lemma predict_is_dot_of_weights_witness :
  (ETD.predict [3] (ETD.mk 1%Z [1] [1] 1 1)
   = Returns (Spec.predict (Learner_of (ETD.mk 1%Z [1] [1] 1 1)) [3],
              ETD.mk 1%Z [1] [1] 1 1))%R.
Proof.
  apply (@predict_is_dot_of_weights 1%Z [ETD.call [1] 1 [1] 1 1 1 1 1 1]%R).
  - cbv -[Rplus Rmult Rminus Rdiv Rinv IZR Q2R]. repeat f_equal; lra.
  - reflexivity.
Defined.

(** C9.  The constructor of [TOETD] never reads its parameter [I]: for every
    dimension and any two values of [I] the constructed objects are the
    same, and every sequence of [learn] and [predict] calls has the same
    outcome (returned predictions and final object) on both.  This holds for
    every scalar type. *)
Theorem TOETD_constructor_ignores_interest
    (T : Type) (ops : Scalar T) (len : Z) (I1 I2 : T) :
  TOETD.new len I1 = TOETD.new len I2 /\
  forall reqs : list (TOETD.request T),
    TOETD.session len I1 (TOETD.serve reqs)
    = TOETD.session len I2 (TOETD.serve reqs).
Proof. split; [reflexivity|intros reqs; reflexivity]. Qed.

(** C8, as stated, fails on the code.  After one ordinary call the object of
    dimension 1 holds weights [1], trace [1] and dual 1; the zero update
    ([phi] all zero, reward 0, [gamma_p] 0) then moves the weight to 2. *)
Lemma zero_update_changes_weights :
  (ETD.session 1 (ETD.learns [ETD.call [1] 1 [1] 1 1 1 1 1 1])
   = Returns (tt, ETD.mk 1%Z [1] [1] 1 1) /\
   ETD.learn [0] 0 [0] 1 1 0 1 1 1 (ETD.mk 1%Z [1] [1] 1 1)
   = Returns (tt, ETD.mk 1%Z [2] [1] 0 0) /\
   [2] <> [1] :> list R)%R.
Proof.
  repeat split.
  - cbv -[Rplus Rmult Rminus Rdiv Rinv IZR Q2R]. repeat f_equal; lra.
  - cbv -[Rplus Rmult Rminus Rdiv Rinv IZR Q2R]. repeat f_equal; lra.
  - intros E. inversion E; lra.
Qed.

(* The amended statement of C8 and the statements about a call with
   [rho = 0] (C10) depend on the values being finite: they are stated in
   binary64 arithmetic, in the last part. *)

(** * Further properties of the code *)

(** ** Stepping through a method *)

Lemma bind_returns (St A B : Type) (c : method St A) (k : A -> method St B)
    (s s' : St) (a : A) :
  c s = Returns (a, s') -> bind c k s = k a s'.
Proof. intros E. unfold bind. now rewrite E. Qed.

Lemma bind_undefined (St A B : Type) (c : method St A) (k : A -> method St B)
    (s : St) :
  c s = Undefined -> bind c k s = Undefined.
Proof. intros E. unfold bind. now rewrite E. Qed.

Lemma bind_returns_inv (St A B : Type) (c : method St A) (k : A -> method St B)
    (s s2 : St) (b : B) :
  bind c k s = Returns (b, s2) ->
  exists a s1, c s = Returns (a, s1) /\ k a s1 = Returns (b, s2).
Proof.
  unfold bind. destruct (c s) as [[a s1]|x|]; try discriminate.
  intros E. exists a, s1. split; [reflexivity|exact E].
Qed.

(** ** Arrays that are too short *)

Section ETD_bounds.
Context {T : Type} `{Scalar T}.
Local Open Scope scalar_scope.

Lemma ETD_dot_loop_short (a1 a2 : ETD.array T) (s : ETD.state T) :
  forall (k i : nat) (acc : T),
    i <= length (ETD.deref s a1) ->
    i <= length (ETD.deref s a2) ->
    length (ETD.deref s a1) < i + k \/ length (ETD.deref s a2) < i + k ->
    for_loop k i
      (fun i ret_ =>
         bind (ETD.rd a1 i) (fun x =>
         bind (ETD.rd a2 i) (fun y => ret (ret_ + x * y)))) acc s
    = Undefined.
Proof.
  induction k as [|k IH]; intros i acc H1 H2 Hshort; [lia|].
  cbn [for_loop].
  destruct (nth_error (ETD.deref s a1) i) as [x|] eqn:E1.
  - destruct (nth_error (ETD.deref s a2) i) as [y|] eqn:E2.
    + rewrite (@bind_returns _ _ _ _ _ s s (acc + x * y)).
      * assert (i < length (ETD.deref s a1)) by (apply nth_error_Some; congruence).
        assert (i < length (ETD.deref s a2)) by (apply nth_error_Some; congruence).
        apply IH; lia.
      * unfold bind, ETD.rd, ret. now rewrite E1, E2.
    + apply bind_undefined. unfold bind, ETD.rd. now rewrite E1, E2.
  - apply bind_undefined. unfold bind, ETD.rd. now rewrite E1.
Qed.

Lemma ETD_dot_short (a1 a2 : ETD.array T) (s : ETD.state T) :
  length (ETD.deref s a1) < Z.to_nat (ETD.n s) \/
  length (ETD.deref s a2) < Z.to_nat (ETD.n s) ->
  ETD.dot a1 a2 s = Undefined.
Proof.
  intros Hshort. unfold ETD.dot, for_upto.
  rewrite (@bind_returns _ _ _ _ _ s s (ETD.n s)) by reflexivity.
  apply ETD_dot_loop_short; lia.
Qed.

Lemma ETD_learn_short (s : ETD.state T) (a : ETD.args T) :
  ETD_wf s ->
  length (ETD.phi a) < Z.to_nat (ETD.n s) \/
  length (ETD.phi_p a) < Z.to_nat (ETD.n s) ->
  ETD.learn_args a s = Undefined.
Proof.
  intros (Hn & Hth & He) Hshort.
  unfold ETD.learn_args, ETD.learn, ETD.learn_scalars.
  apply bind_undefined.
  rewrite (@bind_returns _ _ _ _ _ s (ETD.set_F s (ETD.F s + ETD.I a)) tt)
    by reflexivity.
  destruct (Nat.lt_ge_cases (length (ETD.phi_p a)) (Z.to_nat (ETD.n s))) as [Hpp|Hpp].
  - apply bind_undefined. apply ETD_dot_short. right. exact Hpp.
  - set (s1 := ETD.set_F s (ETD.F s + ETD.I a)).
    assert (E1 : ETD.dot ETD.this_theta (ETD.caller (ETD.phi_p a)) s1
                 = Returns (dot_acc 0 (firstn (Z.to_nat (ETD.n s1)) (ETD.theta s1))
                                      (firstn (Z.to_nat (ETD.n s1)) (ETD.phi_p a)), s1)).
    { apply (@ETD_dot_returns T _ ETD.this_theta (ETD.caller (ETD.phi_p a)) s1);
        unfold s1, ETD.set_F; cbn [ETD.deref ETD.n ETD.theta]; lia. }
    rewrite (@bind_returns _ _ _ _ _ _ _ _ E1).
    apply bind_undefined. apply ETD_dot_short. right.
    destruct Hshort as [Hphi|Hphi]; [exact Hphi|].
    unfold s1, ETD.set_F in *; cbn [ETD.deref ETD.n] in *. lia.
Qed.

(** A [learn] call that returns had arrays of at least n components, and
    left the closed form. *)
Lemma ETD_learn_inv (s s' : ETD.state T) (a : ETD.args T) (u : unit) :
  ETD_wf s ->
  ETD.learn_args a s = Returns (u, s') ->
  Z.to_nat (ETD.n s) <= length (ETD.phi a) /\
  Z.to_nat (ETD.n s) <= length (ETD.phi_p a) /\
  s' = ETD_step s a.
Proof.
  intros Hwf E.
  destruct (Nat.lt_ge_cases (length (ETD.phi a)) (Z.to_nat (ETD.n s))) as [Hphi|Hphi].
  { rewrite ETD_learn_short in E by (assumption || (left; exact Hphi)). discriminate. }
  destruct (Nat.lt_ge_cases (length (ETD.phi_p a)) (Z.to_nat (ETD.n s))) as [Hpp|Hpp].
  { rewrite ETD_learn_short in E by (assumption || (right; exact Hpp)). discriminate. }
  rewrite ETD_learn_returns in E by assumption.
  inversion E. repeat split; assumption.
Qed.

End ETD_bounds.

(** ** Bounds, edge cases and invariants of [ETD] *)

(** [ETD::learn] on a well-formed object returns exactly when both arrays
    have at least n components; with a shorter array it reads out of bounds
    (undefined behaviour).  Holds for every scalar type. *)
Theorem ETD_learn_returns_iff_long_enough
    (T : Type) (ops : Scalar T) (s : ETD.state T) (a : ETD.args T) :
  ETD_wf s ->
  ETD.learn_args a s
  = if ((Z.to_nat (ETD.n s) <=? length (ETD.phi a))
        && (Z.to_nat (ETD.n s) <=? length (ETD.phi_p a)))%bool
    then Returns (tt, ETD_step s a)
    else Undefined.
Proof.
  intros Hwf.
  destruct (Nat.leb_spec (Z.to_nat (ETD.n s)) (length (ETD.phi a))) as [Hphi|Hphi];
    [|apply ETD_learn_short; [exact Hwf|left; exact Hphi]].
  destruct (Nat.leb_spec (Z.to_nat (ETD.n s)) (length (ETD.phi_p a))) as [Hpp|Hpp];
    [|apply ETD_learn_short; [exact Hwf|right; exact Hpp]].
  apply ETD_learn_returns; assumption.
Qed.

Lemma ETD_learn_returns_iff_long_enough_witness :
  (ETD.learn_args (ETD.call [1] 1 [0; 1] 0.1 0.9 0.9 1 0 1)
                  (ETD.mk 2%Z [0; 0] [0; 0] 0 0)
   = if ((Z.to_nat 2 <=? 1)%nat && (Z.to_nat 2 <=? 2)%nat)%bool
     then Returns (tt, ETD_step (ETD.mk 2%Z [0; 0] [0; 0] 0 0)
                                (ETD.call [1] 1 [0; 1] 0.1 0.9 0.9 1 0 1))
     else Undefined)%float.
Proof.
  apply (@ETD_learn_returns_iff_long_enough float binary64_Scalar
           (ETD.mk 2%Z [0; 0] [0; 0] 0 0)%float
           (ETD.call [1] 1 [0; 1] 0.1 0.9 0.9 1 0 1)%float).
  unfold ETD_wf; simpl; repeat split; lia.
Defined.

(** [ETD::predict] (through [ETD::dot]) on a well-formed object returns
    exactly when its array has at least n components, with the accumulated
    products of the weights and the first n components and the object
    untouched; with a shorter array it reads out of bounds.  Holds for every
    scalar type. *)
Theorem ETD_predict_returns_iff_long_enough
    (T : Type) (ops : Scalar T) (s : ETD.state T) (fvec : list T) :
  ETD_wf s ->
  ETD.predict fvec s
  = if Z.to_nat (ETD.n s) <=? length fvec
    then Returns (dot_acc zero (ETD.theta s) (firstn (Z.to_nat (ETD.n s)) fvec), s)
    else Undefined.
Proof.
  intros (Hn & Hth & He). unfold ETD.predict.
  destruct (Nat.leb_spec (Z.to_nat (ETD.n s)) (length fvec)) as [Hf|Hf].
  - rewrite ETD_dot_returns by (cbn [ETD.deref]; lia).
    cbn [ETD.deref]. now rewrite (@firstn_all2 T _ (ETD.theta s)) by lia.
  - apply ETD_dot_short. right. exact Hf.
Qed.

Lemma ETD_predict_returns_iff_long_enough_witness :
  (ETD.predict [3] (ETD.mk 2%Z [1; 2] [0; 0] 0 0)
   = if (Z.to_nat 2 <=? 1)%nat
     then Returns (dot_acc zero [1; 2] (firstn (Z.to_nat 2) [3]),
                   ETD.mk 2%Z [1; 2] [0; 0] 0 0)
     else Undefined)%float.
Proof.
  apply (@ETD_predict_returns_iff_long_enough float binary64_Scalar
           (ETD.mk 2%Z [1; 2] [0; 0] 0 0)%float [3]%float).
  unfold ETD_wf; simpl; repeat split; lia.
Defined.

(** Whatever arrays the calls are given, every sequence of [ETD::learn]
    calls that returns leaves the dimension as it was and both arrays of the
    object with n components.  Holds for every scalar type. *)
Theorem ETD_learns_keep_dimension
    (T : Type) (ops : Scalar T) (calls : list (ETD.args T))
    (s s' : ETD.state T) :
  ETD_wf s ->
  ETD.learns calls s = Returns (tt, s') ->
  ETD.n s' = ETD.n s /\
  length (ETD.theta s') = Z.to_nat (ETD.n s) /\
  length (ETD.e s') = Z.to_nat (ETD.n s).
Proof.
  intros Hwf E.
  destruct (@ETD_learns_preserves T ops (ETD.n s) calls s tt s' (conj Hwf eq_refl) E)
    as [(Hn & Hth & He) Hlen].
  rewrite <- Hlen. repeat split; assumption.
Qed.

Lemma ETD_learns_keep_dimension_witness :
  (ETD.n (ETD.mk 1%Z [2] [1] 0 0) = ETD.n (ETD.mk 1%Z [1] [1] 1 1) /\
   length (ETD.theta (ETD.mk 1%Z [2] [1] 0 0))
   = Z.to_nat (ETD.n (ETD.mk 1%Z [1] [1] 1 1)) /\
   length (ETD.e (ETD.mk 1%Z [2] [1] 0 0))
   = Z.to_nat (ETD.n (ETD.mk 1%Z [1] [1] 1 1)))%float.
Proof.
  apply (@ETD_learns_keep_dimension float binary64_Scalar
           [ETD.call [0; 7] 0 [0; 7; 7] 1 1 0 1 1 1]%float).
  - unfold ETD_wf; simpl; repeat split; lia.
  - vm_compute. reflexivity.
Defined.

(** On an object of dimension 0 every [learn] call returns, whatever its
    arrays: the weights and the trace stay empty, the dual becomes 0 and the
    followon becomes [(F + I) * (rho * gamma_p)]; [predict] returns 0 for
    every array.  Holds for every scalar type. *)
Theorem ETD_dimension_zero
    (T : Type) (ops : Scalar T) (s : ETD.state T) (a : ETD.args T)
    (fvec : list T) :
  ETD_wf s ->
  ETD.n s = 0%Z ->
  ETD.learn_args a s
  = Returns (tt, ETD.mk 0%Z [] []
                   (mul (add (ETD.F s) (ETD.I a)) (mul (ETD.rho a) (ETD.gamma_p a)))
                   zero) /\
  ETD.predict fvec s = Returns (zero, s).
Proof.
  intros Hwf Hzero. pose proof Hwf as (Hn & Hth & He).
  rewrite Hzero in Hth, He. cbn in Hth, He.
  apply length_zero_iff_nil in Hth. apply length_zero_iff_nil in He.
  split.
  - rewrite ETD_learn_returns by (assumption || (rewrite Hzero; cbn; lia)).
    unfold ETD_step. rewrite Hzero, Hth, He. reflexivity.
  - unfold ETD.predict.
    rewrite ETD_dot_returns by (rewrite Hzero; cbn; lia).
    rewrite Hzero. reflexivity.
Qed.

Lemma ETD_dimension_zero_witness :
  (ETD.learn_args (ETD.call [] 1 [4] 0.1 0.9 0.9 1 0 1) (ETD.mk 0%Z [] [] 2 3)
   = Returns (tt, ETD.mk 0%Z [] [] (mul (add 2 1) (mul 1 0.9)) zero) /\
   ETD.predict [5; 6] (ETD.mk 0%Z [] [] 2 3)
   = Returns (zero, ETD.mk 0%Z [] [] 2 3))%float.
Proof.
  apply (@ETD_dimension_zero float binary64_Scalar (ETD.mk 0%Z [] [] 2 3)%float
           (ETD.call [] 1 [4] 0.1 0.9 0.9 1 0 1)%float [5; 6]%float).
  - unfold ETD_wf; simpl; repeat split; lia.
  - reflexivity.
Defined.

Lemma ETD_step_same_drive (T : Type) (ops : Scalar T)
    (s1 s2 : ETD.state T) (a b : ETD.args T) :
  ETD.n s1 = ETD.n s2 ->
  ETD.e s1 = ETD.e s2 ->
  ETD.F s1 = ETD.F s2 ->
  same_drive a b ->
  ETD.n (ETD_step s1 a) = ETD.n (ETD_step s2 b) /\
  ETD.e (ETD_step s1 a) = ETD.e (ETD_step s2 b) /\
  ETD.F (ETD_step s1 a) = ETD.F (ETD_step s2 b).
Proof.
  intros Hn He HF (Hphi & Ha & Hg & Hgp & HI & Hl & Hr).
  unfold ETD_step; cbn [ETD.n ETD.e ETD.F].
  rewrite Hn, He, HF, Hphi, Ha, Hg, Hgp, HI, Hl, Hr. repeat split.
Qed.

(** The trace and the followon evolve on their own: two well-formed objects
    that agree on dimension, trace and followon, fed sequences of [learn]
    calls that differ at most in the rewards and the next feature arrays,
    end with the same trace and the same followon, whatever their weights
    and duals were.  Holds for every scalar type. *)
Theorem trace_independent_of_rewards
    (T : Type) (ops : Scalar T) (calls1 calls2 : list (ETD.args T)) :
  Forall2 same_drive calls1 calls2 ->
  forall s1 s2 s1' s2' : ETD.state T,
    ETD_wf s1 ->
    ETD_wf s2 ->
    ETD.n s1 = ETD.n s2 ->
    ETD.e s1 = ETD.e s2 ->
    ETD.F s1 = ETD.F s2 ->
    ETD.learns calls1 s1 = Returns (tt, s1') ->
    ETD.learns calls2 s2 = Returns (tt, s2') ->
    ETD.e s1' = ETD.e s2' /\ ETD.F s1' = ETD.F s2'.
Proof.
  induction 1 as [|a b calls1 calls2 Hab Hrest IH];
    intros s1 s2 s1' s2' W1 W2 Hn He HF E1 E2.
  - inversion E1; inversion E2; subst. split; assumption.
  - cbn [ETD.learns] in E1, E2.
    apply bind_returns_inv in E1. destruct E1 as ([] & m1 & L1 & R1).
    apply bind_returns_inv in E2. destruct E2 as ([] & m2 & L2 & R2).
    destruct (ETD_learn_inv _ W1 L1) as (Hphi1 & _ & ->).
    destruct (ETD_learn_inv _ W2 L2) as (Hphi2 & _ & ->).
    destruct (@ETD_step_same_drive T ops s1 s2 a b Hn He HF Hab) as (Hn' & He' & HF').
    destruct (@ETD_step_wf T ops s1 a W1 Hphi1) as [W1' _].
    destruct (@ETD_step_wf T ops s2 b W2 Hphi2) as [W2' _].
    exact (IH _ _ _ _ W1' W2' Hn' He' HF' R1 R2).
Qed.

Lemma trace_independent_of_rewards_witness :
  (ETD.e (ETD.mk 1%Z [1] [1] 1 1) = ETD.e (ETD.mk 1%Z [7] [1] 1 0) /\
   ETD.F (ETD.mk 1%Z [1] [1] 1 1) = ETD.F (ETD.mk 1%Z [7] [1] 1 0))%float.
Proof.
  apply (@trace_independent_of_rewards float binary64_Scalar
           [ETD.call [1] 1 [1] 1 1 1 1 1 1]%float
           [ETD.call [1] 7 [0] 1 1 1 1 1 1]%float
           ltac:(repeat constructor)
           (ETD.mk 1%Z [0] [0] 0 0)%float (ETD.mk 1%Z [0] [0] 0 0)%float).
  - unfold ETD_wf; simpl; repeat split; lia.
  - unfold ETD_wf; simpl; repeat split; lia.
  - reflexivity.
  - reflexivity.
  - reflexivity.
  - vm_compute. reflexivity.
  - vm_compute. reflexivity.
Defined.

(** ** Invariants and prediction of [TOETD] *)

Section TOETD_invariants.
Context {T : Type} `{Scalar T}.
Local Open Scope scalar_scope.

Lemma TOETD_rd_preserves (P : TOETD.state T -> Prop) (a : TOETD.array T) (i : nat) :
  preserves P (TOETD.rd a i).
Proof.
  intros s x s' HP E. unfold TOETD.rd in E.
  destruct (nth_error (TOETD.deref s a) i); inversion E; subst; exact HP.
Qed.

Lemma TOETD_wr_e_preserves (len : Z) (i : nat) (x : T) :
  preserves (fun s => TOETD_wf s /\ TOETD.n s = len) (TOETD.wr_e i x).
Proof.
  intros s u s' [(Hn & Hth & He) Hlen] E. unfold TOETD.wr_e in E.
  destruct (update (TOETD.e s) i x) as [v|] eqn:Ev; inversion E; subst.
  apply update_length in Ev. unfold TOETD_wf, TOETD.set_e; cbn [TOETD.n TOETD.theta TOETD.e].
  repeat split; try assumption; lia.
Qed.

Lemma TOETD_wr_theta_preserves (len : Z) (i : nat) (x : T) :
  preserves (fun s => TOETD_wf s /\ TOETD.n s = len) (TOETD.wr_theta i x).
Proof.
  intros s u s' [(Hn & Hth & He) Hlen] E. unfold TOETD.wr_theta in E.
  destruct (update (TOETD.theta s) i x) as [v|] eqn:Ev; inversion E; subst.
  apply update_length in Ev. unfold TOETD_wf, TOETD.set_theta; cbn [TOETD.n TOETD.theta TOETD.e].
  repeat split; try assumption; lia.
Qed.

Lemma TOETD_dot_preserves (P : TOETD.state T -> Prop) (v1 v2 : TOETD.array T) :
  preserves P (TOETD.dot v1 v2).
Proof.
  unfold TOETD.dot, for_upto.
  apply preserves_bind; [apply preserves_gets|intros len].
  apply preserves_for_loop; intros i acc.
  repeat (apply preserves_bind; [apply TOETD_rd_preserves|intro]).
  apply preserves_ret.
Qed.

Lemma TOETD_learn_preserves (len : Z) (a : TOETD.args T) :
  preserves (fun s => TOETD_wf s /\ TOETD.n s = len) (TOETD.learn_args a).
Proof.
  unfold TOETD.learn_args, TOETD.learn, TOETD.learn_body, for_upto.
  repeat first
    [ apply preserves_ret
    | apply preserves_gets
    | apply TOETD_dot_preserves
    | apply TOETD_rd_preserves
    | apply TOETD_wr_e_preserves
    | apply TOETD_wr_theta_preserves
    | apply preserves_modify; intros s Hs; exact Hs
    | apply preserves_for_loop
    | apply preserves_bind
    | match goal with
      | |- forall _, _ => intro
      | |- preserves _ (match ?p with _ => _ end) => destruct p as [[? ?] ?]
      end ].
Qed.

Lemma TOETD_learns_preserves (len : Z) (calls : list (TOETD.args T)) :
  preserves (fun s => TOETD_wf s /\ TOETD.n s = len) (TOETD.learns calls).
Proof.
  induction calls as [|a calls IH]; cbn [TOETD.learns].
  - apply preserves_ret.
  - apply preserves_bind; [apply TOETD_learn_preserves|intros _; exact IH].
Qed.

End TOETD_invariants.

(** Whatever arrays the calls are given, every sequence of [TOETD::learn]
    calls that returns leaves the dimension as it was and both arrays of the
    object with n components.  Holds for every scalar type. *)
Theorem TOETD_dimension_is_kept
    (T : Type) (ops : Scalar T) (calls : list (TOETD.args T))
    (t t' : TOETD.state T) :
  TOETD_wf t ->
  TOETD.learns calls t = Returns (tt, t') ->
  TOETD.n t' = TOETD.n t /\
  length (TOETD.theta t') = Z.to_nat (TOETD.n t) /\
  length (TOETD.e t') = Z.to_nat (TOETD.n t).
Proof.
  intros Hwf E.
  destruct (@TOETD_learns_preserves T ops (TOETD.n t) calls t tt t'
              (conj Hwf eq_refl) E) as [(Hn & Hth & He) Hlen].
  rewrite <- Hlen. repeat split; assumption.
Qed.

Lemma TOETD_dimension_is_kept_witness :
  (TOETD.n (TOETD.mk [1] [1] 1%Z 1 1 1) = TOETD.n (TOETD.mk [0] [0] 1%Z 0 0 0) /\
   length (TOETD.theta (TOETD.mk [1] [1] 1%Z 1 1 1))
   = Z.to_nat (TOETD.n (TOETD.mk [0] [0] 1%Z 0 0 0)) /\
   length (TOETD.e (TOETD.mk [1] [1] 1%Z 1 1 1))
   = Z.to_nat (TOETD.n (TOETD.mk [0] [0] 1%Z 0 0 0)))%float.
Proof.
  apply (@TOETD_dimension_is_kept float binary64_Scalar
           [TOETD.call 1 1 1 [1; 9] 1 1 [1; 9; 9] 1]%float).
  - unfold TOETD_wf; simpl; repeat split; lia.
  - vm_compute. reflexivity.
Defined.

(** On every object reached from a fresh [TOETD] by a sequence of [learn]
    calls, [TOETD::predict] on an array of n components returns the sum of
    the elementwise products of the weights and the array, and leaves the
    object (the stored gamma included) as it was.  Over the reals. *)
Theorem TOETD_predict_returns_dot
    (len : Z) (I0 : R) (calls : list (TOETD.args R)) (t : TOETD.state R)
    (fvec : list R) :
  TOETD.session len I0 (TOETD.learns calls) = Returns (tt, t) ->
  length fvec = Z.to_nat len ->
  TOETD.predict fvec t = Returns (Spec.dot (TOETD.theta t) fvec, t).
Proof.
  unfold TOETD.session. intros Hrun Hf.
  assert (Hlen : (0 <= len)%Z).
  { unfold TOETD.new in Hrun. destruct (Z.ltb_spec len 0); [discriminate|assumption]. }
  destruct (@TOETD_new_wf R R_Scalar len I0 Hlen) as (t0 & E0 & W0 & N0 & _).
  rewrite E0 in Hrun.
  destruct (@TOETD_learns_preserves R R_Scalar len calls t0 tt t (conj W0 N0) Hrun)
    as [(Hn & Hth & He) Hnt].
  unfold TOETD.predict.
  rewrite TOETD_dot_returns by (cbn [TOETD.deref]; lia).
  cbn [TOETD.deref].
  rewrite (@firstn_all2 R _ (TOETD.theta t)), (@firstn_all2 R _ fvec) by lia.
  now rewrite dot_acc_0_R.
Qed.

Lemma TOETD_predict_returns_dot_witness :
  (TOETD.predict [3] (TOETD.mk [1] [1] 1%Z 1 1 1)
   = Returns (Spec.dot (TOETD.theta (TOETD.mk [1] [1] 1%Z 1 1 1)) [3],
              TOETD.mk [1] [1] 1%Z 1 1 1))%R.
Proof.
  apply (@TOETD_predict_returns_dot 1%Z 5%R [TOETD.call 1 1 1 [1] 1 1 [1] 1]%R).
  - cbv -[Rplus Rmult Rminus Rdiv Rinv IZR Q2R]. repeat f_equal; lra.
  - reflexivity.
Defined.

(** [TOETD::learn] is [ETD::learn] with the stored gamma passed as [gamma]:
    on a well-formed [TOETD] object and arrays of n components, it returns,
    leaves the weights, trace, followon and dual that [ETD::learn] leaves on
    an [ETD] object with the same fields when called with the same
    transition and [gamma] equal to the stored gamma, and stores
    [gammaPrime] for the next call.  Holds for every scalar type. *)
Theorem TOETD_learn_is_ETD_learn_at_stored_gamma
    (T : Type) (ops : Scalar T) (t : TOETD.state T) (a : TOETD.args T) :
  TOETD_wf t ->
  TOETD_fits (TOETD.n t) a ->
  exists (t' : TOETD.state T) (s' : ETD.state T),
    TOETD.learn_args a t = Returns (tt, t') /\
    ETD.learn (TOETD.phi a) (TOETD.R a) (TOETD.phiPrime a) (TOETD.alpha a)
              (TOETD.gamma t) (TOETD.gammaPrime a) (TOETD.I a) (TOETD.lambda a)
              (TOETD.rho a)
              (ETD.mk (TOETD.n t) (TOETD.theta t) (TOETD.e t) (TOETD.F t) (TOETD.D t))
    = Returns (tt, s') /\
    ETD_view s' = TOETD_view t' /\
    TOETD.gamma t' = TOETD.gammaPrime a.
Proof.
  intros Wt (Hphi & Hpp). pose proof Wt as (Hn & Hth & He).
  set (s := ETD.mk (TOETD.n t) (TOETD.theta t) (TOETD.e t) (TOETD.F t) (TOETD.D t)).
  set (b := ETD.call (TOETD.phi a) (TOETD.R a) (TOETD.phiPrime a) (TOETD.alpha a)
                     (TOETD.gamma t) (TOETD.gammaPrime a) (TOETD.I a)
                     (TOETD.lambda a) (TOETD.rho a)).
  assert (Ws : ETD_wf s) by (unfold ETD_wf, s; cbn [ETD.n ETD.theta ETD.e]; auto).
  assert (Eb : TOETD_of b = a) by (destruct a; reflexivity).
  exists (TOETD_step t a), (ETD_step s b). split; [|split; [|split]].
  - apply TOETD_learn_returns; [exact Wt|lia|lia].
  - change (ETD.learn_args b s = Returns (tt, ETD_step s b)).
    apply ETD_learn_returns; [exact Ws| |]; unfold s, b; cbn [ETD.n ETD.phi ETD.phi_p]; lia.
  - rewrite <- Eb.
    apply (@step_simulation T ops s t b); reflexivity.
  - reflexivity.
Qed.

Lemma TOETD_learn_is_ETD_learn_at_stored_gamma_witness :
  exists (t' : TOETD.state float) (s' : ETD.state float),
    (TOETD.learn_args (TOETD.call 0.1 1 0.5 [1; 0] 1 1 [0; 1] 0.9)
                      (TOETD.mk [1; 2] [0.5; 0] 2%Z 1 0.25 0.9)
     = Returns (tt, t') /\
     ETD.learn [1; 0] 1 [0; 1] 0.1 0.9 0.9 1 0.5 1 (ETD.mk 2%Z [1; 2] [0.5; 0] 1 0.25)
     = Returns (tt, s') /\
     ETD_view s' = TOETD_view t' /\
     TOETD.gamma t' = 0.9)%float.
Proof.
  apply (@TOETD_learn_is_ETD_learn_at_stored_gamma float binary64_Scalar
           (TOETD.mk [1; 2] [0.5; 0] 2%Z 1 0.25 0.9)%float
           (TOETD.call 0.1 1 0.5 [1; 0] 1 1 [0; 1] 0.9)%float).
  - unfold TOETD_wf; simpl; repeat split; lia.
  - split; reflexivity.
Defined.

(** ** Algebra of [dot], [predict] and [learn] over the reals *)

Lemma Spec_dot_sym (u v : list R) : Spec.dot u v = Spec.dot v u.
Proof.
  revert v; induction u as [|x u IH]; intros [|y v]; unfold Spec.dot;
    cbn [zipWith Spec.sum fold_right]; try reflexivity.
  fold (Spec.sum (zipWith Rmult u v)). fold (Spec.sum (zipWith Rmult v u)).
  fold (Spec.dot u v). fold (Spec.dot v u). rewrite IH. ring.
Qed.

Lemma Spec_dot_linear_r (c : R) (u : list R) :
  forall f g : list R,
    length f = length g ->
    Spec.dot u (zipWith (fun x y => c * x + y)%R f g)
    = (c * Spec.dot u f + Spec.dot u g)%R.
Proof.
  induction u as [|x u IH]; intros [|a f] [|b g] Hl; try discriminate;
    unfold Spec.dot; cbn [zipWith Spec.sum fold_right]; try ring.
  fold (Spec.sum (zipWith Rmult u (zipWith (fun x y => c * x + y)%R f g))).
  fold (Spec.dot u (zipWith (fun x y => c * x + y)%R f g)).
  fold (Spec.sum (zipWith Rmult u f)). fold (Spec.dot u f).
  fold (Spec.sum (zipWith Rmult u g)). fold (Spec.dot u g).
  rewrite IH by (cbn [length] in Hl; lia). ring.
Qed.

Lemma Spec_dot_plus_l (u : list R) :
  forall d v : list R,
    length u = length d ->
    Spec.dot (zipWith Rplus u d) v = (Spec.dot u v + Spec.dot d v)%R.
Proof.
  induction u as [|x u IH]; intros [|y d] [|z v] Hl; try discriminate;
    unfold Spec.dot; cbn [zipWith Spec.sum fold_right]; try ring.
  fold (Spec.sum (zipWith Rmult (zipWith Rplus u d) v)).
  fold (Spec.dot (zipWith Rplus u d) v).
  fold (Spec.sum (zipWith Rmult u v)). fold (Spec.dot u v).
  fold (Spec.sum (zipWith Rmult d v)). fold (Spec.dot d v).
  rewrite IH by (cbn [length] in Hl; lia). ring.
Qed.

Lemma zipWith_map_snd (T : Type) (f : T -> T -> T) (h : T -> T) (u v : list T) :
  length u = length v ->
  (forall x y, f x y = h y) ->
  zipWith f u v = map h v.
Proof.
  intros Hl Hf; revert v Hl; induction u as [|x u IH]; intros [|y v] Hl;
    cbn [zipWith map length] in *; try discriminate; try reflexivity.
  rewrite Hf, IH by lia. reflexivity.
Qed.

(** [ETD::dot] is symmetric in its two arrays, whichever arrays they are and
    also when one of them is too short (then both orders read out of
    bounds).  Over the reals. *)
Theorem ETD_dot_symmetric (s : ETD.state R) (a1 a2 : ETD.array R) :
  ETD.dot a1 a2 s = ETD.dot a2 a1 s.
Proof.
  destruct (Nat.lt_ge_cases (length (ETD.deref s a1)) (Z.to_nat (ETD.n s))) as [H1|H1].
  { rewrite !ETD_dot_short by ((left; exact H1) || (right; exact H1)). reflexivity. }
  destruct (Nat.lt_ge_cases (length (ETD.deref s a2)) (Z.to_nat (ETD.n s))) as [H2|H2].
  { rewrite !ETD_dot_short by ((left; exact H2) || (right; exact H2)). reflexivity. }
  rewrite !ETD_dot_returns by assumption.
  rewrite !dot_acc_0_R. now rewrite Spec_dot_sym.
Qed.

(** [ETD::predict] is linear in the feature array: for arrays [f] and [g]
    of n components, the prediction for [c*f + g] is [c] times the
    prediction for [f] plus the prediction for [g].  Over the reals. *)
Theorem ETD_predict_linear (s : ETD.state R) (c : R) (f g : list R) :
  ETD_wf s ->
  length f = Z.to_nat (ETD.n s) ->
  length g = Z.to_nat (ETD.n s) ->
  exists vf vg : R,
    ETD.predict f s = Returns (vf, s) /\
    ETD.predict g s = Returns (vg, s) /\
    ETD.predict (zipWith (fun x y => c * x + y)%R f g) s
    = Returns ((c * vf + vg)%R, s).
Proof.
  intros (Hn & Hth & He) Hf Hg.
  assert (Hfg : length (zipWith (fun x y => c * x + y)%R f g) = Z.to_nat (ETD.n s))
    by (rewrite length_zipWith; lia).
  exists (Spec.dot (ETD.theta s) f), (Spec.dot (ETD.theta s) g).
  unfold ETD.predict.
  rewrite !ETD_dot_returns by (cbn [ETD.deref]; lia).
  cbn [ETD.deref].
  rewrite !(@firstn_all2 R _ (ETD.theta s)), (@firstn_all2 R _ f),
    (@firstn_all2 R _ g), (@firstn_all2 R _ (zipWith _ f g)) by lia.
  rewrite !dot_acc_0_R, Spec_dot_linear_r by lia.
  repeat split.
Qed.

Lemma ETD_predict_linear_witness :
  exists vf vg : R,
    (ETD.predict [1; 0] (ETD.mk 2%Z [3; 4] [0; 0] 0 0)
     = Returns (vf, ETD.mk 2%Z [3; 4] [0; 0] 0 0) /\
     ETD.predict [0; 1] (ETD.mk 2%Z [3; 4] [0; 0] 0 0)
     = Returns (vg, ETD.mk 2%Z [3; 4] [0; 0] 0 0) /\
     ETD.predict (zipWith (fun x y => 2 * x + y) [1; 0] [0; 1])
                 (ETD.mk 2%Z [3; 4] [0; 0] 0 0)
     = Returns (2 * vf + vg, ETD.mk 2%Z [3; 4] [0; 0] 0 0))%R.
Proof.
  apply ETD_predict_linear.
  - unfold ETD_wf; simpl; repeat split; lia.
  - reflexivity.
  - reflexivity.
Defined.

(** After a [learn] call, the dual [D] is the change the call made to the
    prediction for its own next feature array: [predict(phi_p)] after the
    call minus [predict(phi_p)] before it.  Over the reals. *)
Theorem dual_is_prediction_change (s : ETD.state R) (a : ETD.args R) :
  ETD_wf s ->
  ETD_fits (ETD.n s) a ->
  exists (s' : ETD.state R) (v v' : R),
    ETD.learn_args a s = Returns (tt, s') /\
    ETD.predict (ETD.phi_p a) s = Returns (v, s) /\
    ETD.predict (ETD.phi_p a) s' = Returns (v', s') /\
    ETD.D s' = (v' - v)%R.
Proof.
  intros Hwf (Hphi & Hpp). pose proof Hwf as (Hn & Hth & He).
  destruct (@ETD_step_wf R R_Scalar s a Hwf) as [(Hn' & Hth' & He') Hlen]; [lia|].
  exists (ETD_step s a), (Spec.dot (ETD.theta s) (ETD.phi_p a)),
         (Spec.dot (ETD.theta (ETD_step s a)) (ETD.phi_p a)).
  split; [apply ETD_learn_returns; (assumption || lia)|].
  unfold ETD.predict.
  rewrite !ETD_dot_returns by (cbn [ETD.deref]; lia).
  cbn [ETD.deref]. rewrite Hlen.
  rewrite (@firstn_all2 R _ (ETD.theta s)), (@firstn_all2 R _ (ETD.phi_p a)),
    (@firstn_all2 R _ (ETD.theta (ETD_step s a))) by lia.
  rewrite !dot_acc_0_R. repeat split.
  unfold ETD_step at 1 2. cbn [ETD.D ETD.theta].
  rewrite (@firstn_all2 R _ (ETD.phi_p a)) by lia.
  rewrite fold_left_add_R. cbn [zero add mul R_Scalar].
  change (zipWith add) with (zipWith Rplus).
  rewrite Spec_dot_plus_l
    by (rewrite length_zipWith, length_zipWith, length_firstn; lia).
  unfold Spec.dot. ring.
Qed.

Lemma dual_is_prediction_change_witness :
  exists (s' : ETD.state R) (v v' : R),
    (ETD.learn_args (ETD.call [1] 1 [1] 1 1 1 1 1 1) (ETD.mk 1%Z [0] [0] 0 0)
     = Returns (tt, s') /\
     ETD.predict [1] (ETD.mk 1%Z [0] [0] 0 0) = Returns (v, ETD.mk 1%Z [0] [0] 0 0) /\
     ETD.predict [1] s' = Returns (v', s') /\
     ETD.D s' = v' - v)%R.
Proof.
  apply (@dual_is_prediction_change (ETD.mk 1%Z [0] [0] 0 0)%R
           (ETD.call [1] 1 [1] 1 1 1 1 1 1)%R).
  - unfold ETD_wf; simpl; repeat split; lia.
  - split; reflexivity.
Defined.

(** A freshly constructed object predicts 0 for every array of at least n
    components.  Over the reals. *)
Theorem fresh_ETD_predicts_zero (len : Z) (fvec : list R) :
  (0 <= len)%Z ->
  Z.to_nat len <= length fvec ->
  exists s : ETD.state R,
    ETD.new len = Returns s /\ ETD.predict fvec s = Returns (0%R, s).
Proof.
  intros Hlen Hf.
  destruct (@ETD_new_wf R R_Scalar len Hlen) as (s & Es & (Hn & Hth & He) & Hns).
  exists s. split; [exact Es|].
  unfold ETD.predict.
  rewrite ETD_dot_returns by (cbn [ETD.deref]; lia).
  cbn [ETD.deref]. rewrite dot_acc_0_R.
  unfold ETD.new in Es. destruct (len <? 0)%Z; [discriminate|].
  inversion Es; subst s. cbn [ETD.theta ETD.n zero R_Scalar].
  rewrite (@firstn_all2 R _ (repeat 0%R (Z.to_nat len))) by (rewrite repeat_length; lia).
  now rewrite dot_repeat_0_l.
Qed.

Lemma fresh_ETD_predicts_zero_witness :
  exists s : ETD.state R,
    ETD.new 2 = Returns s /\ ETD.predict [5; 6; 7]%R s = Returns (0%R, s).
Proof.
  apply fresh_ETD_predicts_zero.
  - lia.
  - simpl; lia.
Defined.

(** * The code in binary64 arithmetic *)

(** ** Zeros, finiteness and signs of binary64 operations *)

Lemma Prim2SF_zero : Prim2SF PrimFloat.zero = S754_zero false.
Proof. vm_compute. reflexivity. Qed.

Lemma Prim2SF_infinity : Prim2SF PrimFloat.infinity = S754_infinity false.
Proof. vm_compute. reflexivity. Qed.

Lemma Prim2SF_one : Prim2SF PrimFloat.one = S754_finite false 4503599627370496 (-52).
Proof. vm_compute. reflexivity. Qed.

Ltac sf_cases x :=
  destruct (Prim2SF x) as [[|]|[|]| |[|] ? ?].

Lemma zero64_spec (x : float) : zero64 x <-> SFzero (Prim2SF x).
Proof.
  unfold zero64, is_zero. rewrite eqb_spec, Prim2SF_zero.
  sf_cases x; cbn; split; intros E;
    first [discriminate | contradiction | exact I | reflexivity].
Qed.

Lemma finite64_spec (x : float) : finite64 x <-> SFfinite (Prim2SF x).
Proof.
  unfold finite64, is_finite, is_nan, is_infinity.
  rewrite !eqb_spec, abs_spec, Prim2SF_infinity.
  sf_cases x; cbn; split; intros E;
    first [discriminate | contradiction | exact I | reflexivity | idtac].
  all: rewrite Z.compare_refl, Pos.compare_cont_refl; reflexivity.
Qed.

Lemma nonneg64_spec (x : float) : nonneg64 x <-> SFnonneg (Prim2SF x).
Proof.
  unfold nonneg64. rewrite ltb_spec.
  change (Prim2SF 0%float) with (Prim2SF PrimFloat.zero). rewrite Prim2SF_zero.
  sf_cases x; cbn; split; intros E;
    first [discriminate | contradiction | exact I | reflexivity].
Qed.

Lemma same64_spec (x y : float) : same64 x y <-> SFsame (Prim2SF x) (Prim2SF y).
Proof.
  unfold same64. rewrite !zero64_spec. split.
  - intros [->|[Ex Ey]].
    + destruct (Prim2SF y); cbn; auto.
    + destruct (Prim2SF x), (Prim2SF y); cbn in *; try contradiction; exact I.
  - intros E. destruct (Prim2SF x) as [s| s| |s m e] eqn:Ex;
      destruct (Prim2SF y) as [s'| s'| |s' m' e'] eqn:Ey; cbn in E;
      try discriminate; try (right; split; exact I);
      left; apply Prim2SF_inj; congruence.
Qed.

(** Turn a goal about binary64 values into one about their specifications
    and settle it by cases. *)
Ltac to_spec :=
  repeat match goal with
  | H : zero64 _ |- _ => apply zero64_spec in H
  | H : finite64 _ |- _ => apply finite64_spec in H
  | H : nonneg64 _ |- _ => apply nonneg64_spec in H
  | H : same64 _ _ |- _ => apply same64_spec in H
  | |- zero64 _ => apply zero64_spec
  | |- finite64 _ => apply finite64_spec
  | |- nonneg64 _ => apply nonneg64_spec
  | |- same64 _ _ => apply same64_spec
  | |- _ /\ _ => split
  end;
  rewrite ?mul_spec, ?add_spec, ?sub_spec in *;
  unfold SF64mul, SF64add, SF64sub in *.

Ltac sf_solve :=
  cbn -[binary_round_aux binary_normalize] in *;
  first [ contradiction | discriminate | exact I | reflexivity
        | match goal with H : _ = _ |- _ => inversion H; subst; reflexivity end
        | idtac ].

Ltac sf1 a := to_spec; sf_cases a; sf_solve.
Ltac sf2 a b := to_spec; sf_cases a; sf_cases b; sf_solve.
Ltac sf3 a b c := to_spec; sf_cases a; sf_cases b; sf_cases c; sf_solve.
Ltac sf4 a b c d :=
  to_spec; sf_cases a; sf_cases b; sf_cases c; sf_cases d; sf_solve.

Lemma b64_zero_finite (x : float) : zero64 x -> finite64 x.
Proof. intros H. sf1 x. Qed.

Lemma b64_mul_zero_l (a b : float) :
  zero64 a -> finite64 b -> zero64 (a * b)%float.
Proof. intros Ha Hb. sf2 a b. Qed.

Lemma b64_mul_zero_r (a b : float) :
  finite64 a -> zero64 b -> zero64 (a * b)%float.
Proof. intros Ha Hb. sf2 a b. Qed.

Lemma b64_mul_finite_inv (a b : float) :
  finite64 (a * b)%float -> finite64 a /\ finite64 b.
Proof. intros H. sf2 a b. Qed.

Lemma b64_add_finite_inv (a b : float) :
  finite64 (a + b)%float -> finite64 a /\ finite64 b.
Proof. intros H. sf2 a b. Qed.

Lemma b64_sub_finite_inv (a b : float) :
  finite64 (a - b)%float -> finite64 a /\ finite64 b.
Proof. intros H. sf2 a b. Qed.

Lemma b64_add_zero_zero (a b : float) :
  zero64 a -> zero64 b -> zero64 (a + b)%float.
Proof. intros Ha Hb. sf2 a b. Qed.

Lemma b64_sub_zero_zero (a b : float) :
  zero64 a -> zero64 b -> zero64 (a - b)%float.
Proof. intros Ha Hb. sf2 a b. Qed.

Lemma b64_add_zero_r (x z : float) : zero64 z -> same64 (x + z)%float x.
Proof. intros Hz. sf2 x z. Qed.

Lemma b64_add_zero_l (z y : float) : zero64 z -> same64 (z + y)%float y.
Proof. intros Hz. sf2 z y. Qed.

Lemma b64_sub_zero_r (x z : float) : zero64 z -> same64 (x - z)%float x.
Proof. intros Hz. sf2 x z. Qed.

Lemma b64_sub_diag (x : float) : finite64 x -> zero64 (x - x)%float.
Proof.
  intros Hx. to_spec. sf_cases x; sf_solve.
  all: rewrite Z.pos_sub_diag; exact I.
Qed.

Lemma same64_refl (x : float) : same64 x x.
Proof. left; reflexivity. Qed.

Lemma same64_sym (x y : float) : same64 x y -> same64 y x.
Proof. intros [->|[H1 H2]]; [left; reflexivity|right; split; assumption]. Qed.

Lemma same64_trans (x y z : float) : same64 x y -> same64 y z -> same64 x z.
Proof.
  intros [->|[H1 H2]] [->|[H3 H4]]; try (left; reflexivity);
    right; split; assumption.
Qed.

Lemma same64_zero (x y : float) : same64 x y -> zero64 y -> zero64 x.
Proof. intros [->|[H1 H2]] H; assumption. Qed.

Lemma same64_finite (x y : float) : same64 x y -> finite64 y -> finite64 x.
Proof.
  intros [->|[H1 H2]] H; [assumption|apply b64_zero_finite; assumption].
Qed.

Lemma same64_mul (a a' b b' : float) :
  same64 a a' -> same64 b b' -> same64 (a * b)%float (a' * b')%float.
Proof.
  intros [->|[H1 H2]] [->|[H3 H4]]; try (left; reflexivity).
  - sf3 a' b b'.
  - sf3 a a' b'.
  - sf4 a a' b b'.
Qed.

Lemma same64_add (a a' b b' : float) :
  same64 a a' -> same64 b b' -> same64 (a + b)%float (a' + b')%float.
Proof.
  intros [->|[H1 H2]] [->|[H3 H4]]; try (left; reflexivity).
  - sf3 a' b b'.
  - sf3 a a' b'.
  - sf4 a a' b b'.
Qed.

Lemma same64_sub (a a' b b' : float) :
  same64 a a' -> same64 b b' -> same64 (a - b)%float (a' - b')%float.
Proof.
  intros [->|[H1 H2]] [->|[H3 H4]]; try (left; reflexivity).
  - sf3 a' b b'.
  - sf3 a a' b'.
  - sf4 a a' b b'.
Qed.

Lemma binary_round_aux_nonneg (m : Z) (e : Z) (l : location) :
  SFnonneg (binary_round_aux prec emax false m e l).
Proof.
  unfold binary_round_aux.
  destruct (shr_fexp prec emax m e l) as [mrs e1].
  destruct (shr_fexp prec emax _ e1 loc_Exact) as [mrs2 e2].
  destruct (shr_m mrs2); cbn; auto.
  destruct (e2 <=? 971)%Z; exact I.
Qed.

Lemma nonneg64_mul (a b : float) :
  nonneg64 a -> nonneg64 b -> nonneg64 (a * b)%float.
Proof.
  intros Ha Hb. to_spec. sf_cases a; sf_cases b; sf_solve.
  all: apply binary_round_aux_nonneg.
Qed.

Lemma nonneg64_add (a b : float) :
  nonneg64 a -> nonneg64 b -> nonneg64 (a + b)%float.
Proof.
  intros Ha Hb. to_spec. sf_cases a; sf_cases b; sf_solve.
  all: unfold binary_normalize, binary_round;
    match goal with
    | |- context [shl_align ?m ?e ?e'] => destruct (shl_align m e e')
    end.
  all: apply binary_round_aux_nonneg.
Qed.

(** Multiplying by 1 is exact. *)
Lemma round_times_one (s : bool) (m : positive) (e : Z) :
  bounded prec emax m e = true ->
  binary_round_aux prec emax s (Z.pos (4503599627370496 * m)) (e + -52) loc_Exact
  = S754_finite s m e.
Proof.
  unfold bounded, canonical_mantissa. intros Hb.
  apply andb_prop in Hb. destruct Hb as [Hc He].
  apply Z.eqb_eq in Hc.
  unfold binary_round_aux, shr_fexp.
  cbn [Pos.mul Zdigits2 digits2_pos].
  match goal with
  | |- context [fexp prec emax (?A + (e + -52))] =>
      replace (A + (e + -52))%Z with (Z.pos (digits2_pos m) + e)%Z
        by (rewrite !Pos2Z.inj_succ; lia)
  end.
  rewrite Hc.
  replace (e - (e + -52))%Z with 52%Z by lia.
  cbn [shr shr_record_of_loc iter_pos shr_1 orb].
  cbn [shr_m loc_of_shr_record round_nearest_even Zdigits2].
  replace (e + -52 + 52)%Z with e by lia.
  rewrite Hc, Z.sub_diag.
  cbn [shr shr_m].
  rewrite He. reflexivity.
Qed.

Lemma b64_mul_one_r (x : float) : (x * 1)%float = x.
Proof.
  apply Prim2SF_inj. rewrite mul_spec. unfold SF64mul.
  change (Prim2SF 1%float) with (Prim2SF PrimFloat.one). rewrite Prim2SF_one.
  pose proof (Prim2SF_valid x) as Hv.
  destruct (Prim2SF x) as [[|]|[|]| |s m e]; try reflexivity.
  cbn [SFmul]. rewrite Pos.mul_comm, xorb_false_r.
  apply round_times_one. exact Hv.
Qed.

Lemma b64_mul_one_l (x : float) : (1 * x)%float = x.
Proof.
  apply Prim2SF_inj. rewrite mul_spec. unfold SF64mul.
  change (Prim2SF 1%float) with (Prim2SF PrimFloat.one). rewrite Prim2SF_one.
  pose proof (Prim2SF_valid x) as Hv.
  destruct (Prim2SF x) as [[|]|[|]| |s m e]; try reflexivity.
  cbn [SFmul xorb]. rewrite (Z.add_comm (-52) e).
  apply round_times_one. exact Hv.
Qed.

Create HintDb b64.
#[export] Hint Resolve b64_zero_finite b64_mul_zero_l b64_mul_zero_r
  b64_add_zero_zero b64_sub_zero_zero : b64.

(** Record that [x] is finite, unless that is known already. *)
Ltac fin_note x pf :=
  lazymatch goal with
  | _ : finite64 x |- _ => fail
  | _ => pose proof pf
  end.

(** A finite result has finite operands: collect the finiteness of every
    subterm of the finite values at hand. *)
Ltac fin_sat :=
  repeat match goal with
  | H : finite64 (?a * ?b)%float |- _ =>
      first [ fin_note a (proj1 (@b64_mul_finite_inv a b H))
            | fin_note b (proj2 (@b64_mul_finite_inv a b H)) ]
  | H : finite64 (?a + ?b)%float |- _ =>
      first [ fin_note a (proj1 (@b64_add_finite_inv a b H))
            | fin_note b (proj2 (@b64_add_finite_inv a b H)) ]
  | H : finite64 (?a - ?b)%float |- _ =>
      first [ fin_note a (proj1 (@b64_sub_finite_inv a b H))
            | fin_note b (proj2 (@b64_sub_finite_inv a b H)) ]
  end.

Ltac b64_ops := cbn [zero one add sub mul binary64_Scalar] in *.

(** ** Accumulations that stay zero *)

Lemma fold_add_finite_inv (l : list float) :
  forall acc : float,
    finite64 (fold_left PrimFloat.add l acc) -> finite64 acc.
Proof.
  induction l as [|x l IH]; intros acc H; cbn [fold_left] in H; [exact H|].
  apply IH in H. fin_sat. assumption.
Qed.

Lemma fold_add_zero (ds : list float) :
  forall (ps : list float) (acc : float),
    zero64 acc ->
    Forall zero64 ds ->
    finite64 (fold_left PrimFloat.add (zipWith PrimFloat.mul ds ps) acc) ->
    zero64 (fold_left PrimFloat.add (zipWith PrimFloat.mul ds ps) acc).
Proof.
  induction ds as [|d ds IH]; intros [|p ps] acc Hacc Hds Hfin;
    cbn [zipWith fold_left] in *; try exact Hacc.
  inversion Hds as [|d' ds' Hd Hds']; subst.
  pose proof (fold_add_finite_inv _ _ Hfin) as Hstep. fin_sat.
  apply IH; auto with b64.
Qed.

Lemma dot_acc_finite_inv (u : list float) :
  forall (v : list float) (acc : float),
    finite64 (dot_acc acc u v) -> finite64 acc.
Proof.
  induction u as [|x u IH]; intros [|y v] acc H; cbn [dot_acc] in H; try exact H.
  apply IH in H. b64_ops. fin_sat. assumption.
Qed.

Lemma dot_acc_zero_r (u : list float) :
  forall (v : list float) (acc : float),
    zero64 acc ->
    Forall zero64 v ->
    finite64 (dot_acc acc u v) ->
    zero64 (dot_acc acc u v).
Proof.
  induction u as [|x u IH]; intros [|y v] acc Hacc Hv Hfin;
    cbn [dot_acc] in *; try exact Hacc.
  inversion Hv as [|y' v' Hy Hv']; subst.
  pose proof (dot_acc_finite_inv _ _ _ Hfin) as Hstep. b64_ops. fin_sat.
  apply IH; auto with b64.
Qed.

(** ** A call with [rho = 0] *)

Lemma rho_zero_components (alpha gamma lambda rho delta M D_ d3 : float) :
  zero64 rho ->
  forall es phis ths : list float,
    length phis = length es ->
    length ths = length es ->
    let S_ := (rho * alpha * M * (1 - rho * gamma * lambda * d3))%float in
    let e' := zipWith (fun e_i phi_i => rho * gamma * lambda * e_i + S_ * phi_i)%float
                      es phis in
    let deltas := zipWith (fun e_i phi_i =>
                             delta * e_i + D_ * (e_i - rho * alpha * M * phi_i))%float
                          e' phis in
    Forall finite64 e' ->
    Forall finite64 (zipWith PrimFloat.add ths deltas) ->
    Forall zero64 e' /\
    Forall zero64 deltas /\
    Forall2 same64 (zipWith PrimFloat.add ths deltas) ths.
Proof.
  intros Hrho. cbv zeta.
  induction es as [|e_i es IH]; intros [|phi_i phis] [|t ths] Hl1 Hl2 He Ht;
    cbn [length] in *; try discriminate; cbn [zipWith] in *.
  - repeat split; constructor.
  - inversion He as [|x1 l1 He1 He']; subst.
    inversion Ht as [|x2 l2 Ht1 Ht']; subst.
    destruct (IH phis ths) as (Z1 & Z2 & Z3); try lia; try assumption.
    fin_sat.
    assert (Ze : zero64 (rho * gamma * lambda * e_i
                         + rho * alpha * M * (1 - rho * gamma * lambda * d3) * phi_i)%float)
      by auto 8 with b64.
    assert (Zd : zero64 (delta * (rho * gamma * lambda * e_i
                           + rho * alpha * M * (1 - rho * gamma * lambda * d3) * phi_i)
                         + D_ * (rho * gamma * lambda * e_i
                           + rho * alpha * M * (1 - rho * gamma * lambda * d3) * phi_i
                           - rho * alpha * M * phi_i))%float)
      by auto 8 with b64.
    repeat split; constructor; try assumption.
    apply b64_add_zero_r; exact Zd.
Qed.

(** C10, as stated, fails on the code, whose scalars are binary64: from
    the object that one [learn] call leaves with weight 1e200, a call with
    [rho = 0] and the finite feature 1e200 overflows the dot product of the
    weights and the features, and leaves the weight and the dual NaN instead
    of unchanged and 0. *)
Lemma rho_zero_overflow_counterexample :
  (ETD.session 1 (ETD.learns [ETD.call [1] 1e200 [0] 1 0 0 1 0 1])
   = Returns (tt, ETD.mk 1%Z [1e200] [1] 0 0) /\
   ETD.learn [1e200] 0 [0] 1 1 1 1 1 0 (ETD.mk 1%Z [1e200] [1] 0 0)
   = Returns (tt, ETD.mk 1%Z [nan] [0] 0 nan) /\
   PrimFloat.is_nan nan = true /\
   PrimFloat.eqb nan 1e200 = false /\
   PrimFloat.eqb nan 0 = false)%float.
Proof. repeat split; vm_compute; reflexivity. Qed.

(** C10, amended.  In the binary64 arithmetic of the code, on a well-formed
    object and arrays of n components, a [learn] call with [rho] zero
    returns; if the weights, the trace, the followon and the dual it leaves
    are all finite (no NaN and no infinity has arisen), then every weight is
    the same number as before and the trace, the followon and the dual are
    zeros. *)
Theorem rho_zero_resets_finite_state
    (s : ETD.state float) (phi : list float) (r : float) (phi_p : list float)
    (alpha gamma gamma_p I lambda rho : float) :
  ETD_wf s ->
  length phi = Z.to_nat (ETD.n s) ->
  length phi_p = Z.to_nat (ETD.n s) ->
  zero64 rho ->
  exists s' : ETD.state float,
    ETD.learn phi r phi_p alpha gamma gamma_p I lambda rho s = Returns (tt, s') /\
    (Forall finite64 (ETD.theta s') ->
     Forall finite64 (ETD.e s') ->
     finite64 (ETD.F s') ->
     finite64 (ETD.D s') ->
     Forall2 same64 (ETD.theta s') (ETD.theta s) /\
     Forall zero64 (ETD.e s') /\
     zero64 (ETD.F s') /\
     zero64 (ETD.D s')).
Proof.
  intros Hwf Hphi Hpp Hrho. pose proof Hwf as (Hn & Hth & He).
  set (a := ETD.call phi r phi_p alpha gamma gamma_p I lambda rho).
  exists (ETD_step s a). split.
  - change (ETD.learn_args a s = Returns (tt, ETD_step s a)).
    apply ETD_learn_returns; [exact Hwf| |]; cbn [a ETD.phi ETD.phi_p]; lia.
  - unfold ETD_step.
    cbn [a ETD.n ETD.theta ETD.e ETD.F ETD.D ETD.phi ETD.r ETD.phi_p ETD.alpha
         ETD.gamma ETD.gamma_p ETD.I ETD.lambda ETD.rho].
    rewrite !(@firstn_all2 float _ phi), !(@firstn_all2 float _ phi_p) by lia.
    b64_ops. intros Ft Fe FF FD.
    destruct (@rho_zero_components alpha gamma lambda rho
                (r + gamma_p * dot_acc 0%float (ETD.theta s) phi_p
                 - dot_acc 0%float (ETD.theta s) phi)%float
                (lambda * I + (1 - lambda) * (ETD.F s + I))%float
                (ETD.D s) (dot_acc 0%float phi (ETD.e s)) Hrho
                (ETD.e s) phi (ETD.theta s)) as (Z1 & Z2 & Z3);
      [lia|lia|exact Fe|exact Ft|].
    split; [exact Z3|]. split; [exact Z1|]. split.
    + fin_sat. auto with b64.
    + apply fold_add_zero; [vm_compute; reflexivity|exact Z2|exact FD].
Qed.

Lemma rho_zero_resets_finite_state_witness :
  exists s' : ETD.state float,
    (ETD.learn [1] 0 [0] 1 0.5 1 1 0.5 0 (ETD.mk 1%Z [3] [1] 2 1) = Returns (tt, s') /\
     Forall2 same64 (ETD.theta s') [3] /\
     Forall zero64 (ETD.e s') /\
     zero64 (ETD.F s') /\
     zero64 (ETD.D s'))%float.
Proof.
  destruct (@rho_zero_resets_finite_state (ETD.mk 1%Z [3] [1] 2 1)%float
              [1]%float 0%float [0]%float 1%float 0.5%float 1%float 1%float
              0.5%float 0%float) as (s' & E & Hres).
  - unfold ETD_wf; simpl; repeat split; lia.
  - reflexivity.
  - reflexivity.
  - vm_compute. reflexivity.
  - exists s'. split; [exact E|].
    assert (E' : (ETD.learn [1] 0 [0] 1 0.5 1 1 0.5 0 (ETD.mk 1%Z [3] [1] 2 1)
                  = Returns (tt, ETD.mk 1%Z [3] [0] 0 0))%float)
      by (vm_compute; reflexivity).
    rewrite E' in E. inversion E; subst s'.
    apply Hres; repeat constructor; vm_compute; reflexivity.
Defined.

(** ** The zero update *)

Lemma zero_update_components (alpha gamma lambda rho delta M S_ D_ : float) :
  (finite64 delta -> zero64 delta) ->
  forall es phis ths : list float,
    length phis = length es ->
    length ths = length es ->
    Forall zero64 phis ->
    let e' := zipWith (fun e_i phi_i => rho * gamma * lambda * e_i + S_ * phi_i)%float
                      es phis in
    let deltas := zipWith (fun e_i phi_i =>
                             delta * e_i + D_ * (e_i - rho * alpha * M * phi_i))%float
                          e' phis in
    Forall finite64 e' ->
    Forall finite64 (zipWith PrimFloat.add ths deltas) ->
    Forall2 same64 (zipWith PrimFloat.add ths deltas)
            (zipWith PrimFloat.add ths
               (map (fun e_i => D_ * (rho * gamma * lambda * e_i))%float es)) /\
    (Forall zero64 es \/ zero64 D_ ->
     Forall2 same64 (zipWith PrimFloat.add ths deltas) ths).
Proof.
  intros Hdelta. cbv zeta.
  induction es as [|e_i es IH]; intros [|phi_i phis] [|t ths] Hl1 Hl2 Hz He Ht;
    cbn [length] in *; try discriminate; cbn [zipWith map] in *.
  - split; [constructor|intros _; constructor].
  - inversion He as [|x1 l1 He1 He']; subst.
    inversion Ht as [|x2 l2 Ht1 Ht']; subst.
    inversion Hz as [|x3 l3 Hz1 Hz']; subst.
    destruct (IH phis ths) as (R1 & R2); try lia; try assumption.
    fin_sat.
    set (x := (rho * gamma * lambda * e_i + S_ * phi_i)%float) in *.
    assert (Hx : same64 x (rho * gamma * lambda * e_i)%float)
      by (apply b64_add_zero_r; auto with b64).
    assert (Hg : same64 (delta * x + D_ * (x - rho * alpha * M * phi_i))%float
                        (D_ * (rho * gamma * lambda * e_i))%float).
    { eapply same64_trans; [apply b64_add_zero_l; auto with b64|].
      apply same64_mul; [apply same64_refl|].
      eapply same64_trans; [apply b64_sub_zero_r; auto with b64|exact Hx]. }
    split.
    + constructor; [|exact R1].
      apply same64_add; [apply same64_refl|exact Hg].
    + intros Hcase. constructor.
      * apply b64_add_zero_r. apply (same64_zero Hg).
        destruct Hcase as [Hes|HD]; [|auto with b64].
        inversion Hes; subst. auto with b64.
      * apply R2. destruct Hcase as [Hes|HD]; [|right; exact HD].
        inversion Hes; subst. left; assumption.
Qed.

(** The proviso of finiteness below is needed: with trace 0 and dual 0, the
    zero update on the finite weight 1e200 and [phi_p = [1e200]] overflows
    the dot product, [gamma_p * infinity] is a NaN, and so is the weight the
    call leaves. *)
Lemma zero_update_overflow :
  (ETD.learn [0] 0 [1e200] 1 1 0 1 1 1 (ETD.mk 1%Z [1e200] [0] 0 0)
   = Returns (tt, ETD.mk 1%Z [nan] [0] 0 nan))%float.
Proof. vm_compute. reflexivity. Qed.

(** C8, amended.  In the binary64 arithmetic of the code, on a well-formed
    object, a [learn] call whose [phi] is all zeros, whose reward is zero
    and whose [gamma_p] is zero returns; if the weights and the trace it
    leaves are finite (no NaN and no infinity has arisen), then every weight
    has moved by the dual correction alone: it is the same number as
    [theta[i] + D * (rho*gamma*lambda*e[i])], with the dual and the trace of
    before the call; so every weight is the same number as before when the
    trace was all zeros or the dual was zero. *)
Theorem zero_update_moves_by_dual_term
    (s : ETD.state float) (phi : list float) (r : float) (phi_p : list float)
    (alpha gamma gamma_p I lambda rho : float) :
  ETD_wf s ->
  length phi = Z.to_nat (ETD.n s) ->
  length phi_p = Z.to_nat (ETD.n s) ->
  Forall zero64 phi ->
  zero64 r ->
  zero64 gamma_p ->
  exists s' : ETD.state float,
    ETD.learn phi r phi_p alpha gamma gamma_p I lambda rho s = Returns (tt, s') /\
    (Forall finite64 (ETD.theta s') ->
     Forall finite64 (ETD.e s') ->
     Forall2 same64 (ETD.theta s')
             (zipWith PrimFloat.add (ETD.theta s)
                (map (fun e_i => ETD.D s * (rho * gamma * lambda * e_i))%float
                     (ETD.e s))) /\
     (Forall zero64 (ETD.e s) \/ zero64 (ETD.D s) ->
      Forall2 same64 (ETD.theta s') (ETD.theta s))).
Proof.
  intros Hwf Hphi Hpp Hzphi Hr Hgp. pose proof Hwf as (Hn & Hth & He).
  set (a := ETD.call phi r phi_p alpha gamma gamma_p I lambda rho).
  exists (ETD_step s a). split.
  - change (ETD.learn_args a s = Returns (tt, ETD_step s a)).
    apply ETD_learn_returns; [exact Hwf| |]; cbn [a ETD.phi ETD.phi_p]; lia.
  - unfold ETD_step.
    cbn [a ETD.n ETD.theta ETD.e ETD.F ETD.D ETD.phi ETD.r ETD.phi_p ETD.alpha
         ETD.gamma ETD.gamma_p ETD.I ETD.lambda ETD.rho].
    rewrite !(@firstn_all2 float _ phi), !(@firstn_all2 float _ phi_p) by lia.
    b64_ops. intros Ft Fe.
    apply (@zero_update_components alpha gamma lambda rho
             (r + gamma_p * dot_acc 0%float (ETD.theta s) phi_p
              - dot_acc 0%float (ETD.theta s) phi)%float
             (lambda * I + (1 - lambda) * (ETD.F s + I))%float
             (rho * alpha * (lambda * I + (1 - lambda) * (ETD.F s + I))
              * (1 - rho * gamma * lambda * dot_acc 0%float phi (ETD.e s)))%float
             (ETD.D s));
      try lia; try assumption.
    intros Fd. fin_sat.
    apply b64_sub_zero_zero; [auto with b64|].
    apply dot_acc_zero_r; [vm_compute; reflexivity|exact Hzphi|assumption].
Qed.

Lemma zero_update_moves_by_dual_term_witness :
  exists s' : ETD.state float,
    (ETD.learn [0] 0 [1] 1 0.5 0 1 0.5 1 (ETD.mk 1%Z [3] [2] 2 1) = Returns (tt, s') /\
     Forall2 same64 (ETD.theta s') [3.5] /\
     Forall2 same64 (ETD.theta s')
             (zipWith PrimFloat.add [3] (map (fun e_i => 1 * (1 * 0.5 * 0.5 * e_i)) [2])))%float.
Proof.
  destruct (@zero_update_moves_by_dual_term (ETD.mk 1%Z [3] [2] 2 1)%float
              [0]%float 0%float [1]%float 1%float 0.5%float 0%float 1%float
              0.5%float 1%float) as (s' & E & Hres).
  - unfold ETD_wf; simpl; repeat split; lia.
  - reflexivity.
  - reflexivity.
  - repeat constructor.
  - vm_compute. reflexivity.
  - vm_compute. reflexivity.
  - exists s'. split; [exact E|].
    assert (E' : (ETD.learn [0] 0 [1] 1 0.5 0 1 0.5 1 (ETD.mk 1%Z [3] [2] 2 1)
                  = Returns (tt, ETD.mk 1%Z [3.5] [0.5] 0 0.5))%float)
      by (vm_compute; reflexivity).
    rewrite E' in E. inversion E; subst s'.
    split; [repeat constructor; left; reflexivity|].
    apply Hres; repeat constructor; vm_compute; reflexivity.
Defined.

(** ** The sign of the followon *)

(** In the binary64 arithmetic of the code the followon never becomes
    negative: from a well-formed object whose [F] is not negative, every
    returning sequence of [learn] calls whose [I], [rho] and [gamma_p] are
    not negative ends with an [F] that is not negative ([F < 0] is false;
    it may have become an infinity or a NaN). *)
Theorem followon_never_negative (calls : list (ETD.args float)) :
  forall s s' : ETD.state float,
    ETD_wf s ->
    nonneg64 (ETD.F s) ->
    Forall (fun a => nonneg64 (ETD.I a) /\ nonneg64 (ETD.rho a) /\
                     nonneg64 (ETD.gamma_p a)) calls ->
    ETD.learns calls s = Returns (tt, s') ->
    nonneg64 (ETD.F s').
Proof.
  induction calls as [|a calls IH]; intros s s' Hwf HF Hpos E.
  - inversion E; subst; exact HF.
  - cbn [ETD.learns] in E.
    apply bind_returns_inv in E. destruct E as ([] & m & L & Rest).
    destruct (ETD_learn_inv _ Hwf L) as (Hphi & _ & ->).
    inversion Hpos as [|a' calls' (HI & Hrho & Hgp) Hpos']; subst.
    destruct (@ETD_step_wf float binary64_Scalar s a Hwf Hphi) as [Hwf' _].
    apply (IH (ETD_step s a) s' Hwf'); [|exact Hpos'|exact Rest].
    unfold ETD_step; cbn [ETD.F]. b64_ops.
    apply nonneg64_mul; [apply nonneg64_add|apply nonneg64_mul]; assumption.
Qed.

Lemma followon_never_negative_witness :
  nonneg64 (ETD.F (ETD.mk 1%Z [1] [1] 1 1)%float).
Proof.
  apply (@followon_never_negative
           [ETD.call [1] 1 [1] 1 1 1 1 1 1]%float
           (ETD.mk 1%Z [0] [0] 0 0)%float).
  - unfold ETD_wf; simpl; repeat split; lia.
  - vm_compute. reflexivity.
  - repeat constructor; vm_compute; reflexivity.
  - vm_compute. reflexivity.
Defined.

(** ** A call with [lambda = 0] *)

Lemma lambda_zero_scalars (alpha gamma lambda rho I F1 d3 : float) :
  zero64 lambda ->
  finite64 (rho * alpha * (lambda * I + (1 - lambda) * F1)
            * (1 - rho * gamma * lambda * d3))%float ->
  same64 (rho * alpha * (lambda * I + (1 - lambda) * F1))%float
         (rho * alpha * F1)%float /\
  same64 (rho * alpha * (lambda * I + (1 - lambda) * F1)
          * (1 - rho * gamma * lambda * d3))%float
         (rho * alpha * F1)%float.
Proof.
  intros Hl HS. fin_sat.
  assert (HM : same64 (lambda * I + (1 - lambda) * F1)%float F1).
  { eapply same64_trans; [apply b64_add_zero_l; auto with b64|].
    rewrite <- (b64_mul_one_l F1) at 2.
    apply same64_mul; [apply b64_sub_zero_r; exact Hl|apply same64_refl]. }
  assert (HK : same64 (rho * alpha * (lambda * I + (1 - lambda) * F1))%float
                      (rho * alpha * F1)%float)
    by (apply same64_mul; [apply same64_refl|exact HM]).
  split; [exact HK|].
  eapply same64_trans; [|exact HK].
  rewrite <- (b64_mul_one_r (rho * alpha * (lambda * I + (1 - lambda) * F1))) at 2.
  apply same64_mul; [apply same64_refl|].
  apply b64_sub_zero_r. auto 6 with b64.
Qed.

Lemma lambda_zero_components (gamma lambda rho delta D_ S_ Kc K : float) :
  zero64 lambda ->
  (finite64 S_ -> same64 Kc K /\ same64 S_ K) ->
  forall es phis ths : list float,
    length phis = length es ->
    length ths = length es ->
    let e' := zipWith (fun e_i phi_i => rho * gamma * lambda * e_i + S_ * phi_i)%float
                      es phis in
    let deltas := zipWith (fun e_i phi_i => delta * e_i + D_ * (e_i - Kc * phi_i))%float
                          e' phis in
    Forall finite64 e' ->
    Forall finite64 (zipWith PrimFloat.add ths deltas) ->
    Forall2 same64 e' (map (fun phi_i => K * phi_i)%float phis) /\
    Forall2 same64 (zipWith PrimFloat.add ths deltas)
            (zipWith PrimFloat.add ths
               (map (fun phi_i => delta * (K * phi_i))%float phis)).
Proof.
  intros Hl HS. cbv zeta.
  induction es as [|e_i es IH]; intros [|phi_i phis] [|t ths] Hl1 Hl2 He Ht;
    cbn [length] in *; try discriminate; cbn [zipWith map] in *.
  - split; constructor.
  - inversion He as [|x1 l1 He1 He']; subst.
    inversion Ht as [|x2 l2 Ht1 Ht']; subst.
    destruct (IH phis ths) as (R1 & R2); try lia; try assumption.
    fin_sat.
    destruct HS as [HKc HSK]; [assumption|].
    set (x := (rho * gamma * lambda * e_i + S_ * phi_i)%float) in *.
    assert (Hx : same64 x (K * phi_i)%float).
    { eapply same64_trans; [apply b64_add_zero_l; auto 6 with b64|].
      apply same64_mul; [exact HSK|apply same64_refl]. }
    assert (Hz : zero64 (x - Kc * phi_i)%float).
    { apply (@same64_zero _ (K * phi_i - K * phi_i)%float).
      - apply same64_sub; [exact Hx|].
        apply same64_mul; [exact HKc|apply same64_refl].
      - apply b64_sub_diag. apply (same64_finite (same64_sym Hx)). assumption. }
    assert (Hg : same64 (delta * x + D_ * (x - Kc * phi_i))%float
                        (delta * (K * phi_i))%float).
    { eapply same64_trans; [apply b64_add_zero_r; auto with b64|].
      apply same64_mul; [apply same64_refl|exact Hx]. }
    split; constructor; try assumption.
    apply same64_add; [apply same64_refl|exact Hg].
Qed.

(** The proviso of finiteness below is needed: with [lambda = 0], the trace
    1e200 and the feature 1e200 overflow the dot product of trace and
    features, [lambda * infinity] is a NaN, and so are the weight and the
    trace the call leaves. *)
Lemma lambda_zero_overflow :
  (ETD.learn [1e200] 0 [0] 1 1 1 1 0 1 (ETD.mk 1%Z [1] [1e200] 0 0)
   = Returns (tt, ETD.mk 1%Z [nan] [nan] 1 nan))%float.
Proof. vm_compute. reflexivity. Qed.

(** In the binary64 arithmetic of the code, with [lambda] zero a [learn]
    call on a well-formed object and arrays of n components returns; if the
    weights and the trace it leaves are finite, it was the emphatic TD(0)
    step: the new trace is the same number as [K * phi[i]] and every weight
    the same number as [theta[i] + delta * (K * phi[i])], where
    [K = rho*alpha*(F + I)] and [delta] is the TD error; the old trace,
    [gamma] and the carried dual have had no influence. *)
Theorem lambda_zero_is_TD0_when_finite
    (s : ETD.state float) (phi : list float) (r : float) (phi_p : list float)
    (alpha gamma gamma_p I lambda rho : float) :
  ETD_wf s ->
  length phi = Z.to_nat (ETD.n s) ->
  length phi_p = Z.to_nat (ETD.n s) ->
  zero64 lambda ->
  exists s' : ETD.state float,
    ETD.learn phi r phi_p alpha gamma gamma_p I lambda rho s = Returns (tt, s') /\
    (Forall finite64 (ETD.theta s') ->
     Forall finite64 (ETD.e s') ->
     let delta := (r + gamma_p * dot_acc 0%float (ETD.theta s) phi_p
                   - dot_acc 0%float (ETD.theta s) phi)%float in
     let K := (rho * alpha * (ETD.F s + I))%float in
     Forall2 same64 (ETD.e s') (map (fun phi_i => K * phi_i)%float phi) /\
     Forall2 same64 (ETD.theta s')
             (zipWith PrimFloat.add (ETD.theta s)
                (map (fun phi_i => delta * (K * phi_i))%float phi))).
Proof.
  intros Hwf Hphi Hpp Hl. pose proof Hwf as (Hn & Hth & He).
  set (a := ETD.call phi r phi_p alpha gamma gamma_p I lambda rho).
  exists (ETD_step s a). split.
  - change (ETD.learn_args a s = Returns (tt, ETD_step s a)).
    apply ETD_learn_returns; [exact Hwf| |]; cbn [a ETD.phi ETD.phi_p]; lia.
  - unfold ETD_step.
    cbn [a ETD.n ETD.theta ETD.e ETD.F ETD.D ETD.phi ETD.r ETD.phi_p ETD.alpha
         ETD.gamma ETD.gamma_p ETD.I ETD.lambda ETD.rho].
    rewrite !(@firstn_all2 float _ phi), !(@firstn_all2 float _ phi_p) by lia.
    b64_ops. intros Ft Fe. cbv zeta.
    apply (@lambda_zero_components gamma lambda rho
             (r + gamma_p * dot_acc 0%float (ETD.theta s) phi_p
              - dot_acc 0%float (ETD.theta s) phi)%float
             (ETD.D s)
             (rho * alpha * (lambda * I + (1 - lambda) * (ETD.F s + I))
              * (1 - rho * gamma * lambda * dot_acc 0%float phi (ETD.e s)))%float
             (rho * alpha * (lambda * I + (1 - lambda) * (ETD.F s + I)))%float
             (rho * alpha * (ETD.F s + I))%float Hl);
      try lia; try assumption.
    apply lambda_zero_scalars; exact Hl.
Qed.

Lemma lambda_zero_is_TD0_when_finite_witness :
  exists s' : ETD.state float,
    (ETD.learn [1] 1 [1] 0.5 0.5 1 1 0 1 (ETD.mk 1%Z [3] [2] 2 1) = Returns (tt, s') /\
     Forall2 same64 (ETD.e s') (map (fun phi_i => 1 * 0.5 * (2 + 1) * phi_i) [1]) /\
     Forall2 same64 (ETD.theta s')
             (zipWith PrimFloat.add [3]
                (map (fun phi_i =>
                        (1 + 1 * dot_acc 0 [3] [1] - dot_acc 0 [3] [1])
                        * (1 * 0.5 * (2 + 1) * phi_i)) [1])))%float.
Proof.
  destruct (@lambda_zero_is_TD0_when_finite (ETD.mk 1%Z [3] [2] 2 1)%float
              [1]%float 1%float [1]%float 0.5%float 0.5%float 1%float 1%float
              0%float 1%float) as (s' & E & Hres).
  - unfold ETD_wf; simpl; repeat split; lia.
  - reflexivity.
  - reflexivity.
  - vm_compute. reflexivity.
  - exists s'. split; [exact E|].
    assert (E' : (ETD.learn [1] 1 [1] 0.5 0.5 1 1 0 1 (ETD.mk 1%Z [3] [2] 2 1)
                  = Returns (tt, ETD.mk 1%Z [4.5] [1.5] 3 1.5))%float)
      by (vm_compute; reflexivity).
    rewrite E' in E. inversion E; subst s'.
    apply Hres; repeat constructor; vm_compute; reflexivity.
Defined.
